(** * csvread: the data engine of csv_reader.py

    A shallow embedding of the windowed table model ([DataFrameModel]), the
    chunked loader ([DataLoaderThread.run]), the debounced scroll mapping
    ([OptimizedTableView]) and the search ([CSVReaderApp.search_data]) of
    [src/csv_reader.py], with the properties the specification states about
    them.  Qt widgets appear only through the state they keep (status bar
    text, selected search column, the single-shot timer). *)

From Stdlib Require Import ZArith List String Ascii Bool Lia.
From Stdlib Require Import QArith Qround Qpower Lqa.
From Stdlib Require Import SpecFloat DecimalString.
Import ListNotations.

Local Close Scope Q_scope.
Local Open Scope string_scope.
Local Open Scope Z_scope.

(** ** Constants (csv_reader.py, lines 13-14)

    [CHUNK_SIZE] is the [chunksize] handed to [read_csv]; the loader below
    takes the chunks as the reader yields them. *)

Definition CHUNK_SIZE : Z := 100000.
Definition VISIBLE_ROWS : Z := 100.

(** ** Table values and frames

    A cell read by [pd.read_csv] is a text, an integer, a boolean or a
    binary64 float; a missing field is the float NaN. *)

Inductive value : Type :=
| VStr (s : string)
| VInt (z : Z)
| VBool (b : bool)
| VFloat (f : spec_float).

Definition NaN : value := VFloat S754_nan.

(** [pd.isna] on a scalar. *)
Definition isna (v : value) : bool :=
  match v with
  | VFloat S754_nan => true
  | _ => false
  end.

Definition Row : Type := list value.

(** A frame: its column labels and its rows, in order.  [read_csv] numbers the
    rows of successive chunks consecutively from 0 and [pd.concat] keeps those
    labels, so the label of a row is its position in [rows]; the model
    identifies both. *)
Record DataFrame : Type := mkDataFrame {
  columns : list string;
  rows : list Row
}.

(** [pd.DataFrame()] *)
Definition empty_frame : DataFrame := mkDataFrame [] [].

(** [len(df)] *)
Definition df_len (d : DataFrame) : Z := Z.of_nat (List.length (rows d)).

(** [df.empty]: some axis has length 0. *)
Definition df_empty (d : DataFrame) : bool :=
  (List.length (rows d) =? 0)%nat || (List.length (columns d) =? 0)%nat.

(** [pd.concat([a, b])] for frames that carry the same column labels, which
    the chunks of one [read_csv] do: the rows of [b] follow those of [a]. *)
Definition concat (a b : DataFrame) : DataFrame :=
  mkDataFrame (columns a) (rows a ++ rows b).

(** A Python slice bound, resolved against a sequence of length [len]. *)
Definition slice_bound (len i : Z) : Z :=
  if i <? 0 then Z.max 0 (len + i) else Z.min i len.

(** [l[start:stop]] *)
Definition slice {A : Type} (l : list A) (start stop : Z) : list A :=
  let len := Z.of_nat (List.length l) in
  let s := slice_bound len start in
  let e := slice_bound len stop in
  firstn (Z.to_nat (e - s)) (skipn (Z.to_nat s) l).

(** [df.iloc[start:stop].copy()] *)
Definition iloc (d : DataFrame) (start stop : Z) : DataFrame :=
  mkDataFrame (columns d) (slice (rows d) start stop).

(** ** DataFrameModel (lines 54-88) *)

Record DataFrameModel : Type := mkModel {
  df : DataFrame;
  display_df : DataFrame;
  total_rows : Z;
  loaded_rows : Z;
  offset : Z
}.

(** [DataFrameModel.__init__] *)
Definition new_model : DataFrameModel :=
  mkModel empty_frame empty_frame 0 0 0.

Definition set_total_rows (m : DataFrameModel) (n : Z) : DataFrameModel :=
  mkModel (df m) (display_df m) n (loaded_rows m) (offset m).

(** [update_display_data]: the window is recomputed only while the offset
    lies inside the loaded rows; otherwise [display_df] keeps its value.
    The [layoutChanged] signal, which only tells the view to repaint, is
    left out. *)
Definition update_display_data (m : DataFrameModel) : DataFrameModel :=
  let end_idx := Z.min (offset m + VISIBLE_ROWS) (df_len (df m)) in
  if offset m <? df_len (df m)
  then mkModel (df m) (iloc (df m) (offset m) end_idx)
               (total_rows m) (loaded_rows m) (offset m)
  else m.

Definition set_offset (m : DataFrameModel) (o : Z) : DataFrameModel :=
  update_display_data
    (mkModel (df m) (display_df m) (total_rows m) (loaded_rows m)
             (Z.max 0 (Z.min o (total_rows m - VISIBLE_ROWS)))).

Definition update_chunk (m : DataFrameModel) (chunk : DataFrame) (loaded : Z)
  : DataFrameModel :=
  let d := if df_empty (df m) then chunk else concat (df m) chunk in
  update_display_data
    (mkModel d (display_df m) (total_rows m) loaded (offset m)).

(** The clamp of the specification: [r] brought into [[lo, hi]]. *)
Definition clamp (r lo hi : Z) : Z := Z.max lo (Z.min r hi).

(** The largest valid offset, [max(0, total - W)]. *)
Definition max_offset (m : DataFrameModel) : Z :=
  Z.max 0 (total_rows m - VISIBLE_ROWS).

(** ** Binary64 arithmetic

    Python floats are IEEE 754 binary64 numbers.  A finite float is modelled
    by its exact rational value; every operation rounds the exact result to
    the nearest float, ties to even.  The exponent range is not bounded:
    the quantities computed here are ratios of row counts and scroll
    positions, far from overflow and from subnormal numbers. *)

(** Nearest integer, ties to even. *)
Definition rne (x : Q) : Z :=
  let f := Qfloor x in
  match Qcompare (x - inject_Z f) (1 # 2) with
  | Lt => f
  | Gt => f + 1
  | Eq => if Z.even f then f else f + 1
  end.

(** [floor(log2 x)] for [x > 0]. *)
Definition binade (x : Q) : Z :=
  let k := Z.log2 (Qnum x) - Z.log2 (Zpos (Qden x)) in
  if Qle_bool (2 ^ k)%Q x then k else k - 1.

(** The float nearest to [x > 0]: a 53-bit significand scaled by a power
    of two. *)
Definition round_pos (x : Q) : Q :=
  let e := binade x - 52 in
  Qred (inject_Z (rne (x / 2 ^ e)%Q) * 2 ^ e)%Q.

Definition round64 (x : Q) : Q :=
  match Qcompare x 0 with
  | Eq => 0%Q
  | Gt => round_pos x
  | Lt => (- round_pos (- x))%Q
  end.

(** [float(n)] *)
Definition float_of_int (n : Z) : Q := round64 (inject_Z n).

(** [a / b] on integers: the correctly rounded quotient;
    [None] stands for [ZeroDivisionError]. *)
Definition truediv (a b : Z) : option Q :=
  if b =? 0 then None else Some (round64 (inject_Z a / inject_Z b)%Q).

(** [x * y] on floats. *)
Definition fmul (x y : Q) : Q := round64 (x * y)%Q.

(** [int(x)]: truncation toward zero. *)
Definition int_of_float (x : Q) : Z := Z.quot (Qnum x) (Zpos (Qden x)).

(** The exact value of a finite [spec_float]. *)
Definition Q_of_float (f : spec_float) : Q :=
  match f with
  | S754_finite s m e => (inject_Z (if s then Zneg m else Zpos m) * 2 ^ e)%Q
  | _ => 0%Q
  end.

(** ** Text

    Texts are modelled as ASCII strings. *)

(** [str(n)] for an integer. *)
Definition str_int (z : Z) : string := NilZero.string_of_int (Z.to_int z).

Definition to_lower (c : ascii) : ascii :=
  let n := nat_of_ascii c in
  if ((65 <=? n) && (n <=? 90))%nat then ascii_of_nat (n + 32) else c.

Definition digit_char (d : Z) : ascii := ascii_of_nat (48 + Z.to_nat d).

(** The six decimal digits of [0 <= k < 10^6], leading zeros kept. *)
Definition pad6 (k : Z) : string :=
  String (digit_char (k / 100000 mod 10))
  (String (digit_char (k / 10000 mod 10))
  (String (digit_char (k / 1000 mod 10))
  (String (digit_char (k / 100 mod 10))
  (String (digit_char (k / 10 mod 10))
  (String (digit_char (k mod 10)) ""))))).

Definition sign_text (s : bool) : string := if s then "-" else "".

(** [f"{x:.6f}"]: the exact value of the float rounded to six decimals,
    ties to even. *)
Definition format_6f (f : spec_float) : string :=
  match f with
  | S754_nan => "nan"
  | S754_infinity s => sign_text s ++ "inf"
  | S754_zero s => sign_text s ++ "0.000000"
  | S754_finite s m e =>
      let n := rne (inject_Z (Zpos m) * 2 ^ e * inject_Z 1000000)%Q in
      sign_text s ++ str_int (n / 1000000) ++ "." ++ pad6 (n mod 1000000)
  end.

(** [isinstance(value, (float, np.float64))] *)
Definition is_float (v : value) : bool :=
  match v with
  | VFloat _ => true
  | _ => false
  end.

Definition is_digit (c : ascii) : bool :=
  let n := nat_of_ascii c in ((48 <=? n) && (n <=? 57))%nat.

Fixpoint all_digits (s : string) : bool :=
  match s with
  | EmptyString => true
  | String c r => is_digit c && all_digits r
  end.

(** The number of characters after the first ["."] of a text, when they are
    all decimal digits; [None] when the text has no ["."] or other
    characters follow it. *)
Fixpoint fraction_digits (s : string) : option nat :=
  match s with
  | EmptyString => None
  | String c r =>
      if Ascii.eqb c "." then
        if all_digits r then Some (String.length r) else None
      else fraction_digits r
  end.

(** ** Regular expressions of [Series.str.contains]

    [str.contains(text, case=False, na=False)] compiles [text] as a regular
    expression with [re.IGNORECASE] and searches each element.  The model
    covers the patterns made of ordinary characters and ["."], and the
    patterns that open with a repetition character, which [re] rejects. *)

Inductive atom : Type :=
| Lit (c : ascii)
| AnyChar.

(** The characters with a special meaning in a pattern. *)
Definition is_meta (c : ascii) : bool :=
  existsb (Ascii.eqb c)
    ["."; "^"; "$"; "*"; "+"; "?"; "{"; "}"; "["; "]"; "\"; "|"; "("; ")"]%char.

Fixpoint parse_atoms (pat : string) : option (list atom) :=
  match pat with
  | EmptyString => Some []
  | String c r =>
      if Ascii.eqb c "." then option_map (cons AnyChar) (parse_atoms r)
      else if is_meta c then None
      else option_map (cons (Lit c)) (parse_atoms r)
  end.

(** ["."] matches every character but the newline. *)
Definition atom_matches (a : atom) (c : ascii) : bool :=
  match a with
  | Lit x => Ascii.eqb (to_lower x) (to_lower c)
  | AnyChar => negb (Ascii.eqb c "010")
  end.

Fixpoint match_here (atoms : list atom) (s : string) : bool :=
  match atoms, s with
  | [], _ => true
  | _ :: _, EmptyString => false
  | a :: rest, String c s' => atom_matches a c && match_here rest s'
  end.

(** [regex.search(s) is not None] *)
Fixpoint re_search (atoms : list atom) (s : string) : bool :=
  match_here atoms s ||
  match s with
  | EmptyString => false
  | String _ s' => re_search atoms s'
  end.

(** A compiled pattern, or the message of the [re.error] raised. *)
Inductive compiled : Type :=
| Matcher (f : string -> bool)
| ReError (msg : string).

Definition starts_with_repeat (pat : string) : bool :=
  match pat with
  | String c _ => existsb (Ascii.eqb c) ["*"; "+"; "?"]%char
  | EmptyString => false
  end.



(** An exception message or a value. *)
Definition result (A : Type) : Type := (string + A)%type.

Definition map2_orb (a b : list bool) : list bool :=
  map (fun p => orb (fst p) (snd p)) (combine a b).

(** The positions, counted from [i], at which a mask holds. *)
Fixpoint true_positions (mask : list bool) (i : Z) : list Z :=
  match mask with
  | [] => []
  | b :: rest =>
      if b then i :: true_positions rest (i + 1)
      else true_positions rest (i + 1)
  end.

(** [os.path.basename] on a POSIX path. *)
Fixpoint has_slash (p : string) : bool :=
  match p with
  | EmptyString => false
  | String c r => Ascii.eqb c "/" || has_slash r
  end.

Fixpoint basename (p : string) : string :=
  match p with
  | EmptyString => EmptyString
  | String c r =>
      if has_slash r then basename r
      else if Ascii.eqb c "/" then r else p
  end.

(** ** OptimizedTableView (lines 148-193)

    The state the view keeps for scrolling: the last raw scroll value, the
    single-shot [QTimer] (the milliseconds left while it is active) and the
    maximum of the vertical scroll bar. *)

Record OptimizedTableView : Type := mkView {
  current_scroll_value : Z;
  scroll_timer : option Z;
  scroll_maximum : Z
}.

Definition new_view : OptimizedTableView := mkView 0 None 0.

(** [handle_scroll]: [QTimer.start(50)] starts the timer, or stops and
    restarts it when it is already running. *)
Definition handle_scroll (v : OptimizedTableView) (value : Z)
  : OptimizedTableView :=
  mkView value (Some 50) (scroll_maximum v).

(** [update_model_from_scroll]: the [scroll_position_changed] signals it
    emits. *)
Definition update_model_from_scroll (v : OptimizedTableView)
  (m : DataFrameModel) : list Z :=
  if total_rows m >? 0 then
    let max_scroll := scroll_maximum v in
    if max_scroll >? 0 then
      match truediv (current_scroll_value v) max_scroll with
      | Some visible_ratio =>
          [int_of_float
             (fmul visible_ratio (float_of_int (total_rows m - VISIBLE_ROWS)))]
      | None => []
      end
    else []
  else [].

(** The passing of [ms] milliseconds: an active timer whose delay has
    elapsed fires once and becomes inactive. *)
Definition elapse (v : OptimizedTableView) (m : DataFrameModel) (ms : Z)
  : OptimizedTableView * list Z :=
  match scroll_timer v with
  | Some remaining =>
      if remaining <=? ms
      then (mkView (current_scroll_value v) None (scroll_maximum v),
            update_model_from_scroll v m)
      else (mkView (current_scroll_value v) (Some (remaining - ms))
                   (scroll_maximum v), [])
  | None => (v, [])
  end.

(** ** DataLoaderThread (lines 17-51) *)

Inductive Signal : Type :=
| progress_update (value : Z)
| data_loaded (chunk : DataFrame) (loaded : Z)
| error_occurred (msg : string).

(** The file as the loader sees it: the number of its lines (or the message
    of the exception opening it raises), its header, and what each step of
    the [read_csv] iterator gives: the rows of a chunk, or the message of the
    exception it raises. *)
Record Source : Type := mkSource {
  line_count : result Z;
  header : list string;
  batches : list (result (list Row))
}.

(** [pd.read_csv(path, chunksize=...)]: a file without columns raises
    [EmptyDataError]; every chunk carries the columns of the header. *)
Definition read_csv (src : Source) : list (result DataFrame) :=
  match header src with
  | [] => [inl "No columns to parse from file"]
  | _ :: _ =>
      map (fun b => match b with
                    | inl e => inl e
                    | inr rs => inr (mkDataFrame (header src) rs)
                    end) (batches src)
  end.

(** [int((chunks_loaded / total_lines) * 100)] *)
Definition progress_percent (chunks_loaded total_lines : Z) : option Z :=
  match truediv chunks_loaded total_lines with
  | Some r => Some (int_of_float (fmul r (float_of_int 100)))
  | None => None
  end.

(** The loop of [run]; [is_running i] is the value of [self.is_running] read
    in iteration [i] (another thread may clear it through [stop]). *)
Fixpoint run_loop (is_running : nat -> bool) (total_lines : Z) (i : nat)
  (chunks_loaded : Z) (reader : list (result DataFrame)) : list Signal :=
  match reader with
  | [] => [progress_update 100]
  | inl msg :: _ => [error_occurred msg]
  | inr chunk :: rest =>
      if negb (is_running i) then [progress_update 100]
      else
        let chunks_loaded := chunks_loaded + df_len chunk in
        match progress_percent chunks_loaded total_lines with
        | None => [error_occurred "division by zero"]
        | Some progress =>
            data_loaded chunk chunks_loaded :: progress_update progress ::
            run_loop is_running total_lines (S i) chunks_loaded rest
        end
  end.

(** [DataLoaderThread.run]: the signals emitted, in order. *)
Definition run (src : Source) (is_running : nat -> bool) : list Signal :=
  match line_count src with
  | inl msg => [error_occurred msg]
  | inr total_lines =>
      progress_update 0 :: run_loop is_running total_lines 0 0 (read_csv src)
  end.

(** ** CSVReaderApp (lines 202-490)

    The state of the main window that the data engine reads or writes. *)

Record CSVReaderApp : Type := mkApp {
  model : DataFrameModel;
  table_view : OptimizedTableView;
  status_bar : string;
  progress_bar_value : Z;
  progress_bar_visible : bool;
  search_column : list string;
  search_column_index : Z;
  current_file : string;
  message_boxes : list string
}.

Definition with_model (app : CSVReaderApp) (m : DataFrameModel) :=
  mkApp m (table_view app) (status_bar app) (progress_bar_value app)
        (progress_bar_visible app) (search_column app)
        (search_column_index app) (current_file app) (message_boxes app).

Definition with_view (app : CSVReaderApp) (v : OptimizedTableView) :=
  mkApp (model app) v (status_bar app) (progress_bar_value app)
        (progress_bar_visible app) (search_column app)
        (search_column_index app) (current_file app) (message_boxes app).

Definition showMessage (app : CSVReaderApp) (msg : string) :=
  mkApp (model app) (table_view app) msg (progress_bar_value app)
        (progress_bar_visible app) (search_column app)
        (search_column_index app) (current_file app) (message_boxes app).

Definition with_progress (app : CSVReaderApp) (value : Z) (visible : bool) :=
  mkApp (model app) (table_view app) (status_bar app) value visible
        (search_column app) (search_column_index app) (current_file app)
        (message_boxes app).

Definition with_search_column (app : CSVReaderApp) (items : list string)
  (current : Z) :=
  mkApp (model app) (table_view app) (status_bar app)
        (progress_bar_value app) (progress_bar_visible app) items current
        (current_file app) (message_boxes app).

Definition critical (app : CSVReaderApp) (msg : string) :=
  mkApp (model app) (table_view app) (status_bar app)
        (progress_bar_value app) (progress_bar_visible app)
        (search_column app) (search_column_index app) (current_file app)
        (message_boxes app ++ [msg]).

(** [CSVReaderApp.__init__] *)
Definition new_app : CSVReaderApp :=
  mkApp new_model new_view "Welcome! Open a CSV file to begin." 0 false
        ["All Columns"] 0 "" [].

(** [load_file], up to the start of the loader thread (whose signals arrive
    later, one by one). *)
Definition load_file (app : CSVReaderApp) (file_path : string) (src : Source)
  : CSVReaderApp :=
  let app :=
    mkApp new_model (table_view app)
          ("Loading " ++ basename file_path ++ "...") 0 true
          (search_column app) (search_column_index app) file_path
          (message_boxes app) in
  match line_count src with
  | inl msg =>
      with_progress (critical app ("Could not open file: " ++ msg))
                    (progress_bar_value app) false
  | inr total_lines =>
      with_search_column
        (with_model app (set_total_rows (model app) (total_lines - 1)))
        ["All Columns"] 0
  end.

Definition update_progress (app : CSVReaderApp) (value : Z) : CSVReaderApp :=
  if value =? 100 then
    showMessage (with_progress app value false)
                ("Loaded " ++ basename (current_file app) ++ " successfully")
  else with_progress app value (progress_bar_visible app).

Definition update_data (app : CSVReaderApp) (chunk : DataFrame) (loaded : Z)
  : CSVReaderApp :=
  let app := with_model app (update_chunk (model app) chunk loaded) in
  if (Z.of_nat (List.length (search_column app)) <=? 1) && negb (df_empty chunk)
  then with_search_column app (search_column app ++ columns chunk)
                          (search_column_index app)
  else app.

Definition update_visible_rows (app : CSVReaderApp) (o : Z) : CSVReaderApp :=
  with_model app (set_offset (model app) o).

Definition handle_error (app : CSVReaderApp) (error_msg : string)
  : CSVReaderApp :=
  showMessage
    (with_progress (critical app ("Error loading data: " ++ error_msg))
                   (progress_bar_value app) false)
    "Error loading file".

(** A signal of the loader thread, delivered to the slot connected to it. *)
Definition deliver (app : CSVReaderApp) (s : Signal) : CSVReaderApp :=
  match s with
  | progress_update value => update_progress app value
  | data_loaded chunk loaded => update_data app chunk loaded
  | error_occurred msg => handle_error app msg
  end.

(** The frames the loader handed over, in order of emission. *)
Fixpoint loaded_chunks (signals : list Signal) : list DataFrame :=
  match signals with
  | [] => []
  | data_loaded chunk _ :: rest => chunk :: loaded_chunks rest
  | _ :: rest => loaded_chunks rest
  end.

Fixpoint progress_values (signals : list Signal) : list Z :=
  match signals with
  | [] => []
  | progress_update v :: rest => v :: progress_values rest
  | _ :: rest => progress_values rest
  end.

Fixpoint error_messages (signals : list Signal) : list string :=
  match signals with
  | [] => []
  | error_occurred msg :: rest => msg :: error_messages rest
  | _ :: rest => error_messages rest
  end.

(** ** Rendering and search

    Two functions of the Python runtime are taken as given: the text
    [str] gives a finite non-zero float (its shortest decimal form), and
    what [re.compile] makes of a pattern outside the modelled fragment. *)

Section Runtime.

Variable repr_finite : bool -> positive -> Z -> string.
Variable re_engine : string -> compiled.

(** [str(x)] for a float. *)
Definition str_float (f : spec_float) : string :=
  match f with
  | S754_nan => "nan"
  | S754_infinity s => sign_text s ++ "inf"
  | S754_zero s => sign_text s ++ "0.0"
  | S754_finite s m e => repr_finite s m e
  end.

(** [str(value)], also what [Series.astype(str)] makes of each element: a
    missing value becomes the text [nan]. *)
Definition str_value (v : value) : string :=
  match v with
  | VStr s => s
  | VInt z => str_int z
  | VBool b => if b then "True" else "False"
  | VFloat f => str_float f
  end.

(** The formatting of [DataFrameModel.data] for the display role
    (lines 110-117). *)
Definition display_text (v : value) : string :=
  if isna v then ""
  else if is_float v then
    match v with
    | VFloat f => format_6f f
    | _ => str_value v
    end
  else str_value v.

(** [DataFrameModel.data(index, DisplayRole)] at a valid index;
    [None] is Python's [None]. *)
Definition data (m : DataFrameModel) (row col : nat) : option string :=
  if df_empty (display_df m) then None
  else if (List.length (rows (display_df m)) <=? row)%nat
          || (List.length (columns (display_df m)) <=? col)%nat then None
  else Some (display_text (nth col (nth row (rows (display_df m)) []) NaN)).

(** [re.compile(pat, re.IGNORECASE)] *)
Definition re_compile (pat : string) : compiled :=
  match parse_atoms pat with
  | Some atoms => Matcher (re_search atoms)
  | None =>
      if starts_with_repeat pat
      then ReError "nothing to repeat at position 0"
      else re_engine pat
  end.

(** [df[col].astype(str)] for the column at position [j]. *)
Definition astype_str (d : DataFrame) (j : nat) : list string :=
  map (fun r => str_value (nth j r NaN)) (rows d).

(** [series.str.contains(text, case=False, na=False)] *)
Definition str_contains (series : list string) (text : string)
  : result (list bool) :=
  match re_compile text with
  | ReError msg => inl msg
  | Matcher f => inr (map f series)
  end.

(** The loop [for col in df.columns: mask |= ...] over column positions. *)
Fixpoint all_columns_mask (d : DataFrame) (text : string) (cols : list nat)
  (mask : list bool) : result (list bool) :=
  match cols with
  | [] => inr mask
  | j :: rest =>
      match str_contains (astype_str d j) text with
      | inl msg => inl msg
      | inr m => all_columns_mask d text rest (map2_orb mask m)
      end
  end.

(** The mask of lines 463-473.  With no column at all the scalar [False]
    would index the frame, a [KeyError]. *)
Definition search_mask (d : DataFrame) (column_idx : Z) (text : string)
  : result (list bool) :=
  if (0 <=? column_idx) && (column_idx <? Z.of_nat (List.length (columns d)))
  then str_contains (astype_str d (Z.to_nat column_idx)) text
  else
    match columns d with
    | [] => inl "False"
    | _ :: _ =>
        all_columns_mask d text (seq 0 (List.length (columns d)))
                         (repeat false (List.length (rows d)))
    end.

(** [result_indices = df[mask].index] *)
Definition result_indices (d : DataFrame) (column_idx : Z) (text : string)
  : result (list Z) :=
  match search_mask d column_idx text with
  | inl msg => inl msg
  | inr mask => inr (true_positions mask 0)
  end.

(** [search_data] (lines 453-484); a [QAbstractTableModel] is always
    truthy. *)
Definition search_data (app : CSVReaderApp) (text : string) : CSVReaderApp :=
  if String.eqb text "" || df_empty (df (model app)) then app
  else
    let column_idx := search_column_index app - 1 in
    match result_indices (df (model app)) column_idx text with
    | inr (first_result :: others) =>
        showMessage
          (with_model app
             (set_offset (model app) (Z.max 0 (first_result - 5))))
          ("Found "
           ++ str_int (Z.of_nat (List.length (first_result :: others)))
           ++ " matches")
    | inr [] => showMessage app "No matches found"
    | inl msg => showMessage app ("Search error: " ++ msg)
    end.

(** What the control thread reacts to. *)
Inductive Event : Type :=
| loader_signal (s : Signal)
| scroll_value_changed (value : Z)
| scroll_range_changed (maximum : Z)
| time_elapsed (ms : Z)
| search_text_changed (text : string)
| search_column_selected (i : Z).

(** One event handled; also the [scroll_position_changed] signals emitted
    meanwhile, each delivered to [update_visible_rows]. *)
Definition step (app : CSVReaderApp) (ev : Event) : CSVReaderApp * list Z :=
  match ev with
  | loader_signal s => (deliver app s, [])
  | scroll_value_changed value =>
      (with_view app (handle_scroll (table_view app) value), [])
  | scroll_range_changed maximum =>
      (with_view app
         (mkView (current_scroll_value (table_view app))
                 (scroll_timer (table_view app)) maximum), [])
  | time_elapsed ms =>
      let (v, emitted) := elapse (table_view app) (model app) ms in
      (fold_left update_visible_rows emitted (with_view app v), emitted)
  | search_text_changed text => (search_data app text, [])
  | search_column_selected i =>
      if (0 <=? i) && (i <? Z.of_nat (List.length (search_column app)))
      then (with_search_column app (search_column app) i, [])
      else (app, [])
  end.

Fixpoint run_events (app : CSVReaderApp) (evs : list Event)
  : CSVReaderApp * list Z :=
  match evs with
  | [] => (app, [])
  | ev :: rest =>
      let (app1, out1) := step app ev in
      let (app2, out2) := run_events app1 rest in
      (app2, (out1 ++ out2)%list)
  end.

End Runtime.

(** ** Vocabulary of the properties *)

Fixpoint nondecreasing (l : list Z) : Prop :=
  match l with
  | a :: (b :: _) as rest => a <= b /\ nondecreasing rest
  | _ => True
  end.

(** The rows all chunks of a reader hold together. *)
Fixpoint rows_of_reader (reader : list (result DataFrame)) : Z :=
  match reader with
  | [] => 0
  | inr chunk :: rest => df_len chunk + rows_of_reader rest
  | inl _ :: rest => rows_of_reader rest
  end.

(** The signals of the loop of [run] once [acc] rows are loaded: a chunk and
    its percentage, again and again, closed by 100 or by a failure. *)
Inductive loader_trace (total_lines : Z) : Z -> list Signal -> Prop :=
| trace_done acc :
    loader_trace total_lines acc [progress_update 100]
| trace_failed acc msg :
    loader_trace total_lines acc [error_occurred msg]
| trace_chunk acc chunk p rest :
    progress_percent (acc + df_len chunk) total_lines = Some p ->
    loader_trace total_lines (acc + df_len chunk) rest ->
    loader_trace total_lines acc
      (data_loaded chunk (acc + df_len chunk) :: progress_update p :: rest).

(** The percentage as the specification words it:
    [round(100 * cumulative_rows_loaded / total_lines)], in exact
    arithmetic. *)
Definition rounded_percent (loaded total_lines : Z) : Z :=
  rne (inject_Z 100 * inject_Z loaded / inject_Z total_lines)%Q.

(** The scroll mapping as the specification words it:
    [round((position / max_position) * (total - W))], in exact arithmetic. *)
Definition rounded_offset (position max_position total : Z) : Z :=
  rne (inject_Z position / inject_Z max_position
       * inject_Z (total - VISIBLE_ROWS))%Q.

(** A file of three lines, a header and two rows, read as one chunk. *)
Definition two_row_file : Source :=
  mkSource (inr 3) ["a"] [inr [[VInt 1]; [VInt 2]]].

Definition always_running : nat -> bool := fun _ => true.

(** Stand-ins for the two runtime functions in the closed examples, whose
    cells are texts and integers and whose patterns lie in the modelled
    fragment: neither is consulted there. *)
Definition no_repr : bool -> positive -> Z -> string := fun _ _ _ => "".
Definition no_engine : string -> compiled := fun _ => ReError "".

(** A burst of raw scroll changes: each earlier change comes with the time
    that passes before the next one; the last change is followed by a quiet
    period. *)
Definition burst_events (earlier : list (Z * Z)) (last_value quiet : Z)
  : list Event :=
  (flat_map (fun p => [scroll_value_changed (fst p); time_elapsed (snd p)])
            earlier
   ++ [scroll_value_changed last_value; time_elapsed quiet])%list.

(** A window of 200 rows in total behind a scroll bar of range 0..3. *)
Definition scrolling_app : CSVReaderApp :=
  with_view (with_model new_app (set_total_rows new_model 200))
            (mkView 0 None 3).



(** The models one load goes through: created by [load_file], fed the
    chunks of one [read_csv] (all with the columns [cols] of the header),
    and moved by offset requests. *)
Inductive in_load (cols : list string) : DataFrameModel -> Prop :=
| load_started n :
    cols <> [] ->
    in_load cols (set_total_rows new_model n)
| load_chunk m rs loaded :
    in_load cols m ->
    in_load cols (update_chunk m (mkDataFrame cols rs) loaded)
| load_offset m o :
    in_load cols m ->
    in_load cols (set_offset m o).

(** What holds of every model of a load: the frame and the window carry the
    columns of the header once they are set, and a window is only ever
    computed from a frame that has rows. *)
Definition load_invariant (cols : list string) (m : DataFrameModel) : Prop :=
  cols <> [] /\
  (df m = empty_frame \/ columns (df m) = cols) /\
  (display_df m = empty_frame
   \/ (columns (display_df m) = cols /\ rows (df m) <> [])) /\
  0 <= offset m.

(** A load of 1000 rows of which the first 50 have arrived. *)
Definition partial_load : DataFrameModel :=
  update_chunk (set_total_rows new_model 1000)
               (mkDataFrame ["a"] (repeat [VInt 1] 50)) 50.



Section Predicate.

Variable repr_finite : bool -> positive -> Z -> string.

(** The text of the field of a row in the column at position [j]. *)
Definition cell_text (j : nat) (r : Row) : string :=
  str_value repr_finite (nth j r NaN).

(** The predicate of a search on a row, for a compiled matcher [f] over
    [ncols] columns: the selected column in single-column mode, any
    column in all-columns mode. *)
Definition row_matches (f : string -> bool) (ncols : nat) (column_idx : Z)
  (r : Row) : bool :=
  if (0 <=? column_idx) && (column_idx <? Z.of_nat ncols)
  then f (cell_text (Z.to_nat column_idx) r)
  else existsb (fun j => f (cell_text j r)) (seq 0 ncols).

End Predicate.

(** The data set of the specification's example: 1000 rows of one column,
    the word [needle] in row 42 only, loaded from its file. *)
Definition haystack_rows : list Row :=
  (repeat [VStr "row"] 42 ++ [VStr "a Needle here"] :: repeat [VStr "row"] 957)%list.

Definition haystack_file : Source :=
  mkSource (inr 1001) ["name"] [inr haystack_rows].

Definition haystack_app : CSVReaderApp :=
  fold_left deliver (run haystack_file always_running)
            (load_file new_app "haystack.csv" haystack_file).

(** Two rows of two columns. *)
Definition small_frame : DataFrame :=
  mkDataFrame ["x"; "y"] [[VStr "a"; VStr "ABC"]; [VStr "c"; VInt 3]].

(** The same computation through the Standard Library's specification of
    IEEE 754 arithmetic, at binary64 (precision 53, exponents below 1024);
    [binary64_agrees] compares the two on a grid of small counts. *)
Definition spec_of_int (n : Z) : spec_float := binary_normalize 53 1024 n 0 false.

Definition spec_percent_value (chunks_loaded total_lines : Z) : Q :=
  Q_of_float
    (SFmul 53 1024
       (SFdiv 53 1024 (spec_of_int chunks_loaded) (spec_of_int total_lines))
       (spec_of_int 100)).

Definition percent_value (chunks_loaded total_lines : Z) : Q :=
  match truediv chunks_loaded total_lines with
  | Some r => fmul r (float_of_int 100)
  | None => 0%Q
  end.

(** ** More of the model and of the loader

    [rowCount] and [columnCount] at the top level (an invalid parent), and
    [headerData] for the display role (lines 90-98 and 134-145). *)

Definition rowCount (m : DataFrameModel) : Z :=
  if df_empty (display_df m) then 0 else df_len (display_df m).

Definition columnCount (m : DataFrameModel) : Z :=
  if df_empty (display_df m) then 0
  else Z.of_nat (List.length (columns (display_df m))).

Inductive Orientation : Type :=
| Horizontal
| Vertical.

(** What [headerData] gives: [None], a text, or the [IndexError] of
    [columns[section]] past the last column. *)
Inductive header_result : Type :=
| header_none
| header_text (s : string)
| header_index_error.

Definition headerData (m : DataFrameModel) (section : nat)
  (orientation : Orientation) : header_result :=
  match orientation with
  | Horizontal =>
      if df_empty (display_df m) then header_none
      else match nth_error (columns (display_df m)) section with
           | Some column => header_text column
           | None => header_index_error
           end
  | Vertical =>
      if df_empty (display_df m) then header_none
      else header_text (str_int (offset m + Z.of_nat section + 1))
  end.



(** The text of a query or of a field in lower case. *)
Fixpoint lower (s : string) : string :=
  match s with
  | EmptyString => EmptyString
  | String c r => String (to_lower c) (lower r)
  end.

(** A chunk of the file with header [cols]. *)
Definition chunk_of (cols : list string) (item : result DataFrame) : Prop :=
  match item with
  | inr chunk => columns chunk = cols
  | inl _ => True
  end.

(** A few events on a freshly loaded two-row file: its chunk arrives, a
    search, a scroll change and the time for the timer to fire. *)
Definition two_row_app : CSVReaderApp :=
  with_view (load_file new_app "two.csv" two_row_file) (mkView 0 None 3).

Definition sample_events : list Event :=
  [loader_signal (data_loaded (mkDataFrame ["a"] [[VInt 1]; [VInt 2]]) 2);
   search_text_changed "2";
   scroll_value_changed 1;
   time_elapsed 60].

(** A file of four rows read in chunks of two. *)
Definition four_row_file : Source :=
  mkSource (inr 5) ["a"]
    [inr [[VInt 1]; [VInt 2]]; inr [[VInt 3]; [VInt 4]]].

(** Raw scroll changes, each followed by the time that passes before the
    next. *)
Definition scroll_changes (changes : list (Z * Z)) : list Event :=
  flat_map (fun p => [scroll_value_changed (fst p); time_elapsed (snd p)])
           changes.

(** A view over a load of 1000 rows, scrolled to three quarters. *)
Definition long_model : DataFrameModel := set_total_rows new_model 1000.

(** A pattern atom with its letter in lower case. *)
Definition lower_atom (a : atom) : atom :=
  match a with
  | Lit c => Lit (to_lower c)
  | AnyChar => AnyChar
  end.

(** * Properties *)

(** ** The window *)

Lemma df_len_nonneg (d : DataFrame) : 0 <= df_len d.
Proof. unfold df_len. lia. Qed.

Lemma slice_nonneg {A : Type} (l : list A) (o e : Z) :
  0 <= o -> o <= e -> e <= Z.of_nat (List.length l) ->
  slice l o e = firstn (Z.to_nat (e - o)) (skipn (Z.to_nat o) l).
Proof.
  intros Ho Hoe He. unfold slice, slice_bound.
  destruct (Z.ltb_spec o 0); [lia|].
  destruct (Z.ltb_spec e 0); [lia|].
  rewrite !Z.min_l by lia. reflexivity.
Qed.

Lemma window_rows (m : DataFrameModel) :
  0 <= offset m -> offset m < df_len (df m) ->
  rows (display_df (update_display_data m)) =
  firstn (Z.to_nat VISIBLE_ROWS) (skipn (Z.to_nat (offset m)) (rows (df m))).
Proof.
  intros H0 Hlt. unfold update_display_data.
  destruct (Z.ltb_spec (offset m) (df_len (df m))); [|lia].
  cbn [display_df iloc rows]. unfold df_len, VISIBLE_ROWS in *.
  rewrite slice_nonneg by lia.
  destruct (Z.min_spec (offset m + 100) (Z.of_nat (List.length (rows (df m)))))
    as [[Hc ->]|[Hc ->]].
  - f_equal. lia.
  - rewrite !firstn_all2; [reflexivity| |]; rewrite List.length_skipn; lia.
Qed.

Lemma df_update_display_data (m : DataFrameModel) :
  df (update_display_data m) = df m.
Proof. unfold update_display_data. destruct (_ <? _); reflexivity. Qed.

Lemma offset_set_offset (m : DataFrameModel) (r : Z) :
  offset (set_offset m r) = Z.max 0 (Z.min r (total_rows m - VISIBLE_ROWS)).
Proof.
  unfold set_offset, update_display_data. cbn [offset df].
  destruct (_ <? _); reflexivity.
Qed.

Lemma df_set_offset (m : DataFrameModel) (r : Z) : df (set_offset m r) = df m.
Proof.
  unfold set_offset, update_display_data. cbn [offset df].
  destruct (_ <? _); reflexivity.
Qed.

Lemma display_update_cases (m : DataFrameModel) :
  (offset m < df_len (df m) /\
   display_df (update_display_data m) =
   iloc (df m) (offset m) (Z.min (offset m + VISIBLE_ROWS) (df_len (df m))))
  \/ (df_len (df m) <= offset m /\
      display_df (update_display_data m) = display_df m).
Proof.
  unfold update_display_data.
  destruct (Z.ltb_spec (offset m) (df_len (df m))); [left|right]; auto.
Qed.

Lemma invariant_update_display (cols : list string) (m : DataFrameModel) :
  load_invariant cols m -> load_invariant cols (update_display_data m).
Proof.
  intros (Hc & Hdf & Hdisp & Hoff).
  destruct (display_update_cases m) as [[Hlt E]|[Hge E]];
    (split; [exact Hc|]); rewrite df_update_display_data;
    (split; [exact Hdf|]); (split; [|unfold update_display_data;
       destruct (_ <? _); exact Hoff]); rewrite E.
  - right. cbn [iloc columns].
    assert (Hrows : rows (df m) <> []).
    { intros Er. unfold df_len in Hlt. rewrite Er in Hlt. cbn in Hlt. lia. }
    split; [|exact Hrows].
    destruct Hdf as [Hdf|Hdf]; [|exact Hdf].
    rewrite Hdf in Hrows. contradiction.
  - exact Hdisp.
Qed.

Lemma in_load_invariant (cols : list string) (m : DataFrameModel) :
  in_load cols m -> load_invariant cols m.
Proof.
  induction 1 as [n Hc|m rs loaded _ IH|m o _ IH].
  - repeat split; cbn; auto; lia.
  - destruct IH as (Hc & Hdf & Hdisp & Hoff).
    unfold update_chunk. apply invariant_update_display.
    split; [exact Hc|]. cbn [df display_df offset].
    destruct (df_empty (df m)) eqn:Ee.
    + split; [right; reflexivity|]. split; [|exact Hoff].
      destruct Hdisp as [Hd|[Hd Hr]]; [left; exact Hd|exfalso].
      unfold df_empty in Ee.
      destruct (rows (df m)) eqn:Er; [contradiction|].
      destruct Hdf as [Hdf|Hdf].
      * rewrite Hdf in Er. discriminate.
      * rewrite Hdf in Ee. destruct cols; [contradiction|discriminate].
    + assert (Hcols : columns (df m) = cols).
      { destruct Hdf as [Hdf|Hdf]; [rewrite Hdf in Ee; discriminate|exact Hdf]. }
      split; [right; exact Hcols|]. split; [|exact Hoff].
      destruct Hdisp as [Hd|[Hd Hr]]; [left; exact Hd|right].
      split; [exact Hd|]. cbn.
      destruct (rows (df m)); [contradiction|discriminate].
  - destruct IH as (Hc & Hdf & Hdisp & Hoff).
    unfold set_offset. apply invariant_update_display.
    split; [exact Hc|]. cbn [df display_df offset].
    split; [exact Hdf|]. split; [exact Hdisp|]. lia.
Qed.

Lemma window_length (m : DataFrameModel) :
  0 <= offset m -> offset m < df_len (df m) ->
  Z.of_nat (List.length (rows (display_df (update_display_data m))))
  = Z.min VISIBLE_ROWS (df_len (df m) - offset m).
Proof.
  intros H0 Hlt. rewrite window_rows by assumption.
  rewrite List.length_firstn, List.length_skipn.
  unfold df_len, VISIBLE_ROWS in *. lia.
Qed.




(** C2. Whatever offset is requested, [set_offset] stores the request clamped
    to [[0, max(0, total_rows - VISIBLE_ROWS)]], and requesting the clamped
    value gives the same model (hence the same window). *)
Theorem set_offset_clamps (m : DataFrameModel) (r : Z) :
  offset (set_offset m r) = clamp r 0 (max_offset m) /\
  set_offset m r = set_offset m (clamp r 0 (max_offset m)).
Proof.
  assert (E : Z.max 0 (Z.min r (total_rows m - VISIBLE_ROWS)) =
              clamp r 0 (max_offset m)) by (unfold clamp, max_offset; lia).
  assert (E2 : clamp (clamp r 0 (max_offset m)) 0 (max_offset m) =
               clamp r 0 (max_offset m)) by (unfold clamp, max_offset; lia).
  split.
  - unfold set_offset, update_display_data. cbn [offset df].
    destruct (_ <? _); cbn [offset]; exact E.
  - unfold set_offset. rewrite E.
    replace (Z.max 0 (Z.min (clamp r 0 (max_offset m)) (total_rows m - VISIBLE_ROWS)))
      with (clamp r 0 (max_offset m)); [reflexivity|].
    unfold clamp, max_offset; lia.
Qed.

(** ** Binary64 rounding is monotone *)

Section Rounding.
Local Open Scope Q_scope.

Lemma rne_cases (x : Q) : (rne x = Qfloor x \/ rne x = Qfloor x + 1)%Z.
Proof.
  unfold rne. destruct (_ ?= _); [destruct (Z.even _)|..]; auto.
Qed.

Lemma rne_le (x y : Q) : x <= y -> (rne x <= rne y)%Z.
Proof.
  intros Hxy.
  pose proof (Qfloor_resp_le _ _ Hxy) as Hf.
  destruct (Z.eq_dec (Qfloor x) (Qfloor y)) as [E|NE].
  - unfold rne. rewrite <- E.
    destruct (Qcompare_spec (x - inject_Z (Qfloor x)) (1 # 2)) as [Hx|Hx|Hx];
    destruct (Qcompare_spec (y - inject_Z (Qfloor x)) (1 # 2)) as [Hy|Hy|Hy];
    try destruct (Z.even (Qfloor x)); try lia; exfalso; lra.
  - destruct (rne_cases x), (rne_cases y); lia.
Qed.

Lemma rne_inject_Z (z : Z) : rne (inject_Z z) = z.
Proof.
  unfold rne. rewrite Qfloor_Z.
  destruct (Qcompare_spec (inject_Z z - inject_Z z) (1 # 2)) as [H|H|H]; auto; exfalso; lra.
Qed.

Lemma pow2_pos (e : Z) : 0 < 2 ^ e.
Proof. apply Qpower_0_lt. reflexivity. Qed.

Lemma pow2_succ (e : Z) : 2 ^ (e + 1) == 2 * 2 ^ e.
Proof. rewrite Qpower_plus by discriminate. ring. Qed.

Lemma pow2_inject (n : Z) : (0 <= n)%Z -> inject_Z (2 ^ n) == 2 ^ n.
Proof. intros. apply (Zpower_Qpower 2 n); assumption. Qed.

Lemma binade_spec (x : Q) :
  0 < x -> 2 ^ binade x <= x /\ x < 2 ^ (binade x + 1).
Proof.
  intros Hx. destruct x as [n d].
  assert (Hn : (0 < n)%Z) by (unfold Qlt in Hx; simpl in Hx; lia).
  unfold binade. cbn [Qnum Qden].
  set (ln := Z.log2 n). set (ld := Z.log2 (Z.pos d)).
  destruct (Z.log2_spec n Hn) as [Hn1 Hn2]. fold ln in Hn1, Hn2.
  destruct (Z.log2_spec (Z.pos d) eq_refl) as [Hd1 Hd2]. fold ld in Hd1, Hd2.
  assert (Hln : (0 <= ln)%Z) by apply Z.log2_nonneg.
  assert (Hld : (0 <= ld)%Z) by apply Z.log2_nonneg.
  (* n # d lies strictly between 2^(k-1) and 2^(k+1) *)
  assert (Eq1 : n # d == inject_Z n / inject_Z (Z.pos d)) by apply Qmake_Qdiv.
  assert (Qn1 : 2 ^ ln <= inject_Z n)
    by (rewrite <- pow2_inject by lia; rewrite <- Zle_Qle; exact Hn1).
  assert (Qn2 : inject_Z n < 2 * 2 ^ ln).
  { rewrite <- pow2_succ, <- pow2_inject by lia. rewrite <- Zlt_Qlt.
    unfold Z.succ in Hn2. exact Hn2. }
  assert (Qd1 : 2 ^ ld <= inject_Z (Z.pos d))
    by (rewrite <- pow2_inject by lia; rewrite <- Zle_Qle; exact Hd1).
  assert (Qd2 : inject_Z (Z.pos d) < 2 * 2 ^ ld).
  { rewrite <- pow2_succ, <- pow2_inject by lia. rewrite <- Zlt_Qlt.
    unfold Z.succ in Hd2. exact Hd2. }
  assert (Hdpos : 0 < inject_Z (Z.pos d)) by reflexivity.
  assert (Ek : 2 ^ (ln - ld) * 2 ^ ld == 2 ^ ln).
  { rewrite <- Qpower_plus by discriminate. replace (ln - ld + ld)%Z with ln by lia. reflexivity. }
  pose proof (pow2_pos ln) as Pln. pose proof (pow2_pos ld) as Pld.
  pose proof (pow2_pos (ln - ld)) as Pk.
  assert (Up : n # d < 2 ^ (ln - ld + 1)).
  { rewrite Eq1, pow2_succ. apply Qlt_shift_div_r; [exact Hdpos|].
    apply Qlt_le_trans with (2 * 2 ^ ln); [exact Qn2|].
    rewrite <- Ek. rewrite <- !Qmult_assoc.
    apply Qmult_le_l; [reflexivity|]. apply Qmult_le_l; [exact Pk|]. exact Qd1. }
  assert (Lo : 2 ^ (ln - ld - 1) <= n # d).
  { assert (E' : 2 ^ (ln - ld) == 2 * 2 ^ (ln - ld - 1)).
    { rewrite <- pow2_succ. replace (ln - ld - 1 + 1)%Z with (ln - ld)%Z by lia. reflexivity. }
    rewrite Eq1. apply Qle_shift_div_l; [exact Hdpos|].
    apply Qle_trans with (2 ^ ln); [|exact Qn1].
    rewrite <- Ek, E'.
    pose proof (pow2_pos (ln - ld - 1)) as Pk1.
    setoid_replace (2 * 2 ^ (ln - ld - 1) * 2 ^ ld) with (2 ^ (ln - ld - 1) * (2 * 2 ^ ld)) by ring.
    apply Qmult_le_l; [exact Pk1|]. apply Qlt_le_weak; exact Qd2. }
  destruct (Qle_bool (2 ^ (ln - ld)) (n # d)) eqn:Hb.
  - apply Qle_bool_iff in Hb. split; assumption.
  - split; [exact Lo|].
    replace (ln - ld - 1 + 1)%Z with (ln - ld)%Z by lia.
    apply Qnot_le_lt. intro Hc. apply Qle_bool_iff in Hc. congruence.
Qed.

Lemma binade_le (x y : Q) : 0 < x -> x <= y -> (binade x <= binade y)%Z.
Proof.
  intros Hx Hxy.
  assert (Hy : 0 < y) by (eapply Qlt_le_trans; eauto).
  destruct (binade_spec x Hx) as [X1 _]. destruct (binade_spec y Hy) as [_ Y2].
  assert (binade x < binade y + 1)%Z; [|lia].
  apply (Qpower_lt_compat_l_inv 2); [|reflexivity].
  eapply Qle_lt_trans; [exact X1|]. eapply Qle_lt_trans; eauto.
Qed.

Lemma pow2_split (b : Z) : 2 ^ b == inject_Z (2 ^ 52) * 2 ^ (b - 52).
Proof.
  rewrite pow2_inject by lia. rewrite <- Qpower_plus by discriminate.
  replace (52 + (b - 52))%Z with b by lia. reflexivity.
Qed.

Lemma pow2_split_up (b : Z) : 2 ^ (b + 1) == inject_Z (2 ^ 53) * 2 ^ (b - 52).
Proof.
  rewrite pow2_inject by lia. rewrite <- Qpower_plus by discriminate.
  replace (53 + (b - 52))%Z with (b + 1)%Z by lia. reflexivity.
Qed.

Lemma scaled_bounds (x : Q) :
  0 < x ->
  inject_Z (2 ^ 52) <= x / 2 ^ (binade x - 52) /\
  x / 2 ^ (binade x - 52) <= inject_Z (2 ^ 53).
Proof.
  intros Hx. destruct (binade_spec x Hx) as [B1 B2].
  pose proof (pow2_pos (binade x - 52)) as P.
  split.
  - apply Qle_shift_div_l; [exact P|]. rewrite <- pow2_split. exact B1.
  - apply Qle_shift_div_r; [exact P|]. apply Qlt_le_weak.
    rewrite <- pow2_split_up. exact B2.
Qed.

Lemma round_pos_eq (x : Q) :
  round_pos x == inject_Z (rne (x / 2 ^ (binade x - 52))) * 2 ^ (binade x - 52).
Proof. unfold round_pos. apply Qred_correct. Qed.

Lemma round_pos_bounds (x : Q) :
  0 < x -> 2 ^ binade x <= round_pos x /\ round_pos x <= 2 ^ (binade x + 1).
Proof.
  intros Hx. destruct (scaled_bounds x Hx) as [S1 S2].
  pose proof (pow2_pos (binade x - 52)) as P.
  apply rne_le in S1. apply rne_le in S2. rewrite rne_inject_Z in S1, S2.
  rewrite round_pos_eq. split.
  - rewrite (pow2_split (binade x)). apply Qmult_le_compat_r; [|apply Qlt_le_weak; exact P].
    rewrite <- Zle_Qle. exact S1.
  - rewrite pow2_split_up.
    apply Qmult_le_compat_r; [|apply Qlt_le_weak; exact P].
    rewrite <- Zle_Qle. exact S2.
Qed.

Lemma round_pos_pos (x : Q) : 0 < x -> 0 < round_pos x.
Proof.
  intros Hx. destruct (round_pos_bounds x Hx) as [B _].
  eapply Qlt_le_trans; [apply (pow2_pos (binade x))|exact B].
Qed.

Lemma round_pos_le (x y : Q) : 0 < x -> x <= y -> round_pos x <= round_pos y.
Proof.
  intros Hx Hxy.
  assert (Hy : 0 < y) by (eapply Qlt_le_trans; eauto).
  pose proof (binade_le x y Hx Hxy) as Hb.
  destruct (Z.eq_dec (binade x) (binade y)) as [E|NE].
  - rewrite !round_pos_eq, E.
    pose proof (pow2_pos (binade y - 52)) as P.
    apply Qmult_le_compat_r; [|apply Qlt_le_weak; exact P].
    rewrite <- Zle_Qle. apply rne_le.
    apply Qmult_le_compat_r; [exact Hxy|].
    apply Qlt_le_weak, Qinv_lt_0_compat, P.
  - destruct (round_pos_bounds x Hx) as [_ X2].
    destruct (round_pos_bounds y Hy) as [Y1 _].
    eapply Qle_trans; [exact X2|]. eapply Qle_trans; [|exact Y1].
    apply Qpower_le_compat_l; [lia|discriminate].
Qed.

Lemma round64_le (x y : Q) : x <= y -> round64 x <= round64 y.
Proof.
  intros Hxy. unfold round64.
  destruct (Qcompare_spec x 0) as [Hx|Hx|Hx];
  destruct (Qcompare_spec y 0) as [Hy|Hy|Hy]; try (exfalso; lra).
  - apply Qle_refl.
  - apply Qlt_le_weak, round_pos_pos, Hy.
  - assert (0 < round_pos (- x)) by (apply round_pos_pos; lra). lra.
  - assert (round_pos (- y) <= round_pos (- x)) by (apply round_pos_le; lra). lra.
  - assert (0 < round_pos (- x)) by (apply round_pos_pos; lra).
    assert (0 < round_pos y) by (apply round_pos_pos; lra). lra.
  - apply round_pos_le; assumption.
Qed.

Lemma round64_nonneg (x : Q) : 0 <= x -> 0 <= round64 x.
Proof.
  intros Hx. apply (round64_le 0 x) in Hx. exact Hx.
Qed.

End Rounding.

Example binary64_agrees :
  forallb (fun a =>
    forallb (fun b =>
      Qeq_bool (percent_value (Z.of_nat a) (Z.of_nat (S b)))
               (spec_percent_value (Z.of_nat a) (Z.of_nat (S b))))
      (seq 0 40))
    (seq 0 40) = true.
Proof. vm_compute. reflexivity. Qed.

(** [int((29 / 100) * 100)] is 28: the product is just below 29. *)
Example progress_percent_29_of_100 : progress_percent 29 100 = Some 28.
Proof. vm_compute. reflexivity. Qed.

(** ** The progress percentage *)

Lemma int_of_float_floor (x : Q) : (0 <= x)%Q -> int_of_float x = Qfloor x.
Proof.
  destruct x as [n d]. unfold Qle, int_of_float, Qfloor. cbn. intros H.
  apply Z.quot_div_nonneg; lia.
Qed.

Lemma int_of_float_le (x y : Q) :
  (0 <= x)%Q -> (x <= y)%Q -> int_of_float x <= int_of_float y.
Proof.
  intros Hx Hxy. rewrite !int_of_float_floor by lra.
  apply Qfloor_resp_le, Hxy.
Qed.

Lemma round64_1 : (round64 1 == 1)%Q.
Proof. vm_compute. reflexivity. Qed.

Lemma float_of_int_100 : (float_of_int 100 == 100)%Q.
Proof. vm_compute. reflexivity. Qed.

Lemma ratio_le (a a' b : Z) :
  a <= a' -> 0 < b -> (inject_Z a / inject_Z b <= inject_Z a' / inject_Z b)%Q.
Proof.
  intros Ha Hb. apply Qmult_le_compat_r.
  - rewrite <- Zle_Qle. exact Ha.
  - apply Qlt_le_weak, Qinv_lt_0_compat. change 0%Q with (inject_Z 0).
    rewrite <- Zlt_Qlt. exact Hb.
Qed.

Lemma ratio_nonneg (a b : Z) :
  0 <= a -> 0 < b -> (0 <= inject_Z a / inject_Z b)%Q.
Proof.
  intros Ha Hb. apply (Qle_trans _ (inject_Z 0 / inject_Z b)).
  - unfold Qdiv. rewrite Qmult_0_l. apply Qle_refl.
  - apply ratio_le; assumption.
Qed.

Lemma ratio_le_1 (a b : Z) :
  a <= b -> 0 < b -> (inject_Z a / inject_Z b <= 1)%Q.
Proof.
  intros Ha Hb. apply Qle_shift_div_r.
  - change 0%Q with (inject_Z 0). rewrite <- Zlt_Qlt. exact Hb.
  - rewrite Qmult_1_l. rewrite <- Zle_Qle. exact Ha.
Qed.


Lemma progress_percent_mono (a a' b p p' : Z) :
  0 <= a -> a <= a' -> 0 < b ->
  progress_percent a b = Some p -> progress_percent a' b = Some p' ->
  p <= p'.
Proof.
  intros Ha Haa Hb. unfold progress_percent, truediv.
  destruct (Z.eqb_spec b 0); [lia|].
  intros [= <-] [= <-].
  pose proof (ratio_nonneg a b Ha Hb) as H0.
  pose proof (ratio_le a a' b Haa Hb) as H1.
  pose proof (round64_nonneg _ H0) as R0.
  pose proof (round64_le _ _ H1) as R1.
  pose proof float_of_int_100 as C.
  unfold fmul. apply int_of_float_le.
  - apply round64_nonneg. rewrite C.
    apply Qmult_le_0_compat; [exact R0|discriminate].
  - apply round64_le. rewrite C.
    apply Qmult_le_compat_r; [exact R1|discriminate].
Qed.

Lemma progress_percent_range (a b p : Z) :
  0 <= a -> a <= b -> 0 < b ->
  progress_percent a b = Some p -> 0 <= p <= 100.
Proof.
  intros Ha Hab Hb. unfold progress_percent, truediv.
  destruct (Z.eqb_spec b 0); [lia|].
  intros [= <-].
  pose proof (ratio_nonneg a b Ha Hb) as H0.
  pose proof (ratio_le_1 a b Hab Hb) as H1.
  pose proof (round64_nonneg _ H0) as R0.
  pose proof (round64_le _ _ H1) as R1. rewrite round64_1 in R1.
  pose proof float_of_int_100 as C.
  assert (N : (0 <= round64 (inject_Z a / inject_Z b) * float_of_int 100)%Q).
  { rewrite C. apply Qmult_le_0_compat; [exact R0|discriminate]. }
  assert (U : (round64 (inject_Z a / inject_Z b) * float_of_int 100 <= 100)%Q).
  { rewrite C. setoid_replace 100%Q with (1 * 100)%Q at 2 by reflexivity.
    apply Qmult_le_compat_r; [exact R1|discriminate]. }
  unfold fmul. split.
  - rewrite int_of_float_floor by (apply round64_nonneg; exact N).
    change 0 with (Qfloor 0). apply Qfloor_resp_le, round64_nonneg, N.
  - change 100 with (int_of_float (round64 100)).
    apply int_of_float_le; [apply round64_nonneg; exact N|].
    apply round64_le, U.
Qed.

(** ** The loader *)

Lemma rows_of_reader_nonneg reader : 0 <= rows_of_reader reader.
Proof.
  induction reader as [|[msg|chunk] rest IH]; cbn; try lia.
  pose proof (df_len_nonneg chunk). lia.
Qed.

Lemma run_loop_trace is_running total_lines reader :
  forall i acc,
    loader_trace total_lines acc (run_loop is_running total_lines i acc reader).
Proof.
  induction reader as [|[msg|chunk] rest IH]; intros i acc; cbn.
  - constructor.
  - constructor.
  - destruct (is_running i); cbn; [|constructor].
    destruct (progress_percent (acc + df_len chunk) total_lines) eqn:E.
    + constructor; [exact E|apply IH].
    + constructor.
Qed.

Lemma run_loop_nondecreasing is_running total_lines reader :
  forall i acc lo,
    0 <= acc -> acc + rows_of_reader reader <= total_lines ->
    lo <= 100 ->
    (forall a p, acc <= a <= total_lines ->
                 progress_percent a total_lines = Some p -> lo <= p) ->
    nondecreasing
      (lo :: progress_values (run_loop is_running total_lines i acc reader)).
Proof.
  induction reader as [|[msg|chunk] rest IH]; intros i acc lo Hacc Hsum Hlo Hfrom;
    cbn [run_loop rows_of_reader] in *.
  - cbn. auto.
  - cbn. auto.
  - pose proof (df_len_nonneg chunk) as Hc.
    pose proof (rows_of_reader_nonneg rest) as Hr.
    destruct (is_running i); cbn [negb]; [|cbn; auto].
    destruct (progress_percent (acc + df_len chunk) total_lines) as [p|] eqn:E;
      [|cbn; auto].
    cbn [progress_values].
    assert (Htot : 0 < total_lines).
    { unfold progress_percent, truediv in E.
      destruct (Z.eqb_spec total_lines 0); [discriminate|lia]. }
    split.
    + apply (Hfrom (acc + df_len chunk)); [lia|exact E].
    + apply IH; try lia.
      * eapply progress_percent_range; [| | |exact E]; lia.
      * intros a q Ha Hq.
        eapply (progress_percent_mono (acc + df_len chunk) a); eauto; lia.
Qed.

Lemma run_loop_completes is_running total_lines reader :
  forall i acc d,
    error_messages (run_loop is_running total_lines i acc reader) = [] ->
    last (progress_values (run_loop is_running total_lines i acc reader)) d
    = 100.
Proof.
  induction reader as [|[msg|chunk] rest IH]; intros i acc d; cbn.
  - reflexivity.
  - discriminate.
  - destruct (is_running i); cbn; [|reflexivity].
    destruct (progress_percent (acc + df_len chunk) total_lines); cbn;
      [|discriminate].
    intros H. specialize (IH (S i) (acc + df_len chunk) d H).
    destruct (progress_values _) eqn:E; [|exact IH].
    exfalso. revert H E. clear.
    generalize (S i), (acc + df_len chunk). 
    destruct rest as [|[m|c] r]; cbn; try discriminate.
    intros n z. destruct (is_running n); cbn; try discriminate.
    destruct (progress_percent _ _); cbn; discriminate.
Qed.

(** C5 (as the code has it). A load opens with the percentage 0; every
    chunk is followed by [int((chunks_loaded / total_lines) * 100)], the
    binary64 quotient truncated toward zero, not rounded; the loop closes
    with an unconditional 100 unless it fails.  While the rows loaded do not
    exceed the line count the percentages never decrease, and a load that
    emits no failure ends on 100. *)
Theorem progress_of_a_load (src : Source) (is_running : nat -> bool)
  (total_lines : Z) :
  line_count src = inr total_lines ->
  rows_of_reader (read_csv src) <= total_lines ->
  exists tail,
    run src is_running = progress_update 0 :: tail /\
    loader_trace total_lines 0 tail /\
    nondecreasing (progress_values (run src is_running)) /\
    (error_messages (run src is_running) = [] ->
     last (progress_values (run src is_running)) 0 = 100).
Proof.
  intros Hlines Hrows. unfold run. rewrite Hlines.
  eexists. split; [reflexivity|]. split; [apply run_loop_trace|]. split.
  - cbn [progress_values]. apply run_loop_nondecreasing; try lia.
    intros a p Ha Hp.
    destruct (Z.eq_dec total_lines 0) as [->|Hne].
    + unfold progress_percent, truediv in Hp. cbn in Hp. discriminate.
    + eapply progress_percent_range; [| | |exact Hp]; lia.
  - cbn [error_messages progress_values]. intros H.
    pose proof (run_loop_completes is_running total_lines (read_csv src) 0%nat 0 0 H) as L.
    destruct (progress_values _) eqn:E; [discriminate L|exact L].
Qed.

Lemma progress_of_a_load_witness :
  exists tail,
    run two_row_file always_running = progress_update 0 :: tail /\
    loader_trace 3 0 tail /\
    nondecreasing (progress_values (run two_row_file always_running)) /\
    (error_messages (run two_row_file always_running) = [] ->
     last (progress_values (run two_row_file always_running)) 0 = 100).
Proof.
  apply (progress_of_a_load two_row_file always_running 3).
  - reflexivity.
  - vm_compute. discriminate.
Defined.

(** C5 fails as stated: loading the two rows of a three-line file emits
    0, 66, 100, while [round(100 * 2 / 3)] is 67 (and the closing 100 is not
    [round(100 * 2 / 3)] either). *)
Lemma progress_is_truncated :
  progress_values (run two_row_file always_running) = [0; 66; 100] /\
  rounded_percent 2 3 = 67.
Proof. vm_compute. split; reflexivity. Qed.

(** ** The debounced scroll mapping *)

Section Scrolling.

Variable repr_finite : bool -> positive -> Z -> string.
Variable re_engine : string -> compiled.

Lemma run_events_app (app : CSVReaderApp) (evs1 evs2 : list Event) :
  run_events repr_finite re_engine app (evs1 ++ evs2) =
  let (app1, out1) := run_events repr_finite re_engine app evs1 in
  let (app2, out2) := run_events repr_finite re_engine app1 evs2 in
  (app2, (out1 ++ out2)%list).
Proof.
  revert app. induction evs1 as [|ev evs1 IH]; intros app; cbn.
  - destruct (run_events repr_finite re_engine app evs2). reflexivity.
  - destruct (step repr_finite re_engine app ev) as [a o]. rewrite IH.
    destruct (run_events repr_finite re_engine a evs1) as [a1 o1].
    destruct (run_events repr_finite re_engine a1 evs2) as [a2 o2].
    rewrite app_assoc. reflexivity.
Qed.

(** A change followed by less than the delay: the timer is pending, nothing
    is emitted, and neither the model nor the scroll range moved. *)
Lemma earlier_changes_pending (earlier : list (Z * Z)) :
  Forall (fun p => snd p < 50) earlier ->
  forall app, exists v,
    run_events repr_finite re_engine app
      (flat_map (fun p => [scroll_value_changed (fst p); time_elapsed (snd p)])
                earlier)
    = (with_view app v, []) /\
    scroll_maximum v = scroll_maximum (table_view app).
Proof.
  induction 1 as [|[value gap] rest Hgap _ IH]; intros app; cbn [flat_map].
  - exists (table_view app). destruct app; split; reflexivity.
  - cbn [fst snd] in *.
    change ([scroll_value_changed value; time_elapsed gap] ++ ?l)%list
      with (scroll_value_changed value :: time_elapsed gap :: l).
    cbn [run_events step].
    unfold elapse, handle_scroll. cbn [table_view with_view scroll_timer].
    destruct (Z.leb_spec 50 gap); [lia|].
    cbn [fold_left].
    match goal with |- context [run_events _ _ ?a _] => destruct (IH a) as [v [E M]] end.
    rewrite E. exists v. split; [reflexivity|exact M].
Qed.

Lemma model_after_requests (requests : list Z) (app : CSVReaderApp) :
  model (fold_left update_visible_rows requests app)
  = fold_left set_offset requests (model app).
Proof.
  revert app. induction requests as [|o l IH]; intros app; cbn; [reflexivity|].
  rewrite IH. reflexivity.
Qed.

Lemma view_after_requests (requests : list Z) (app : CSVReaderApp) :
  table_view (fold_left update_visible_rows requests app) = table_view app.
Proof.
  revert app. induction requests as [|o l IH]; intros app; cbn; [reflexivity|].
  rewrite IH. reflexivity.
Qed.

(** C6 (as the code has it). After a burst of raw scroll changes less than
    50 ms apart and a quiet period of at least 50 ms, the timer has fired
    once, for the last change: one offset request is emitted when the model
    has rows to show ([total_rows > 0]) and the scroll bar has a range
    ([maximum > 0]), none otherwise; its value is
    [int((position / maximum) * (total_rows - VISIBLE_ROWS))], truncated
    toward zero, and it is the only request that reaches [set_offset]. *)
Theorem debounced_scroll (app : CSVReaderApp) (earlier : list (Z * Z))
  (last_value quiet : Z) :
  Forall (fun p => snd p < 50) earlier ->
  50 <= quiet ->
  let maximum := scroll_maximum (table_view app) in
  let total := total_rows (model app) in
  let emitted :=
    if (total >? 0) && (maximum >? 0) then
      match truediv last_value maximum with
      | Some ratio =>
          [int_of_float (fmul ratio (float_of_int (total - VISIBLE_ROWS)))]
      | None => []
      end
    else [] in
  let after := run_events repr_finite re_engine app (burst_events earlier last_value quiet) in
  snd after = emitted /\
  (List.length emitted <= 1)%nat /\
  ((0 <? total) && (0 <? maximum) = true -> List.length emitted = 1%nat) /\
  model (fst after) = fold_left set_offset emitted (model app) /\
  scroll_timer (table_view (fst after)) = None.
Proof.
  intros Hgaps Hquiet maximum total emitted after.
  assert (Hafter : after =
    (fold_left update_visible_rows emitted
       (with_view app (mkView last_value None maximum)), emitted)).
  { subst after. unfold burst_events. rewrite run_events_app.
    destruct (earlier_changes_pending earlier Hgaps app) as [v [E M]].
    rewrite E. cbn [run_events step].
    unfold elapse, handle_scroll. cbn [table_view with_view scroll_timer].
    destruct (Z.leb_spec 50 quiet); [|lia].
    cbn [current_scroll_value scroll_maximum model with_view].
    rewrite M. fold maximum.
    assert (Em : update_model_from_scroll
                   (mkView last_value (Some 50) maximum) (model app) = emitted).
    { unfold update_model_from_scroll, emitted.
      cbn [scroll_maximum current_scroll_value]. fold total.
      destruct (total >? 0), (maximum >? 0); reflexivity. }
    rewrite Em. rewrite app_nil_r. reflexivity. }
  assert (Hlen : (List.length emitted <= 1)%nat).
  { subst emitted. destruct (_ && _); [|cbn; lia].
    destruct (truediv _ _); cbn; lia. }
  rewrite Hafter. cbn [fst snd]. repeat split.
  - exact Hlen.
  - intros Hg. subst emitted.
    apply andb_prop in Hg. destruct Hg as [Ht Hm].
    apply Z.ltb_lt in Ht, Hm.
    destruct (Z.gtb_spec total 0); [|lia].
    destruct (Z.gtb_spec maximum 0); [|lia]. cbn [andb].
    unfold truediv. destruct (Z.eqb_spec maximum 0); [lia|]. reflexivity.
  - rewrite model_after_requests. reflexivity.
  - rewrite view_after_requests. reflexivity.
Qed.

End Scrolling.

Lemma debounced_scroll_witness :
  snd (run_events no_repr no_engine scrolling_app
         (burst_events [(1, 10); (3, 49)] 2 50)) = [66].
Proof.
  refine (eq_trans
            (proj1 (debounced_scroll no_repr no_engine scrolling_app
                      [(1, 10); (3, 49)] 2 50 _ _)) _).
  - repeat constructor; cbn; lia.
  - lia.
  - vm_compute. reflexivity.
Defined.

(** C6 fails as stated: position 2 of 3 over 200 rows emits the offset 66,
    while [round((2 / 3) * 100)] is 67; and a burst over a model without
    rows (or a scroll bar without range) emits no request at all. *)
Lemma scroll_offset_is_truncated :
  snd (run_events no_repr no_engine scrolling_app (burst_events [] 2 50))
  = [66] /\
  rounded_offset 2 3 200 = 67 /\
  snd (run_events no_repr no_engine new_app (burst_events [] 2 50)) = [].
Proof. vm_compute. repeat split. Qed.

(** ** A load that fails *)








(** ** Rendering at the presentation boundary *)

Lemma all_digits_uint (u : Decimal.uint) :
  all_digits (NilEmpty.string_of_uint u) = true.
Proof. induction u; cbn; auto. Qed.

Lemma all_digits_str_int (z : Z) : 0 <= z -> all_digits (str_int z) = true.
Proof.
  intros Hz. unfold str_int. destruct z as [|p|p]; [reflexivity| |lia].
  cbn [Z.to_int NilZero.string_of_int NilZero.string_of_uint].
  generalize (Pos.to_uint p). intros u.
  destruct u; [reflexivity|..];
    unfold NilZero.string_of_uint; apply all_digits_uint.
Qed.

Lemma is_digit_digit_char (d : Z) : 0 <= d < 10 -> is_digit (digit_char d) = true.
Proof.
  intros H.
  assert (C : d = 0 \/ d = 1 \/ d = 2 \/ d = 3 \/ d = 4 \/ d = 5 \/ d = 6
              \/ d = 7 \/ d = 8 \/ d = 9) by lia.
  repeat (destruct C as [->|C]; [reflexivity|]). subst d. reflexivity.
Qed.

Lemma all_digits_pad6 (k : Z) : all_digits (pad6 k) = true.
Proof.
  unfold pad6. cbn [all_digits].
  rewrite !is_digit_digit_char by (apply Z.mod_pos_bound; lia).
  reflexivity.
Qed.

Lemma fraction_digits_after (a b : string) :
  all_digits a = true -> all_digits b = true ->
  fraction_digits (a ++ "." ++ b) = Some (String.length b).
Proof.
  intros Ha Hb. induction a as [|c a IH]; cbn.
  - rewrite Hb. reflexivity.
  - cbn in Ha. apply andb_prop in Ha. destruct Ha as [Hc Ha].
    destruct (Ascii.eqb_spec c "."); [subst c; discriminate Hc|].
    apply IH, Ha.
Qed.

Lemma fraction_digits_signed (s : bool) (a b : string) :
  all_digits a = true -> all_digits b = true ->
  fraction_digits (sign_text s ++ a ++ "." ++ b) = Some (String.length b).
Proof.
  intros Ha Hb. destruct s; cbn [sign_text append];
    [change (fraction_digits (String "-" (a ++ "." ++ b)))
       with (fraction_digits (a ++ "." ++ b))|];
    apply fraction_digits_after; assumption.
Qed.

Lemma rne_nonneg (x : Q) : (0 <= x)%Q -> 0 <= rne x.
Proof.
  intros Hx. rewrite <- (rne_inject_Z 0). apply rne_le. exact Hx.
Qed.

Lemma format_6f_finite (s : bool) (m : positive) (e : Z) :
  fraction_digits (format_6f (S754_finite s m e)) = Some 6%nat.
Proof.
  unfold format_6f.
  set (n := rne (inject_Z (Z.pos m) * 2 ^ e * inject_Z 1000000)%Q).
  assert (Hn : 0 <= n).
  { apply rne_nonneg. apply Qmult_le_0_compat; [|discriminate].
    apply Qmult_le_0_compat; [discriminate|].
    apply Qlt_le_weak, pow2_pos. }
  rewrite fraction_digits_signed.
  - reflexivity.
  - apply all_digits_str_int. apply Z.div_pos; lia.
  - apply all_digits_pad6.
Qed.

(** [data] returns the formatted text of the cell the index points at. *)
Lemma data_at_valid_index (repr_finite : bool -> positive -> Z -> string)
  (m : DataFrameModel) (row col : nat) :
  (row < List.length (rows (display_df m)))%nat ->
  (col < List.length (columns (display_df m)))%nat ->
  data repr_finite m row col
  = Some (display_text repr_finite
            (nth col (nth row (rows (display_df m)) []) NaN)).
Proof.
  intros Hr Hc. unfold data, df_empty.
  destruct (Nat.eqb_spec (List.length (rows (display_df m))) 0); [lia|].
  destruct (Nat.eqb_spec (List.length (columns (display_df m))) 0); [lia|].
  destruct (Nat.leb_spec (List.length (rows (display_df m))) row); [lia|].
  destruct (Nat.leb_spec (List.length (columns (display_df m))) col); [lia|].
  reflexivity.
Qed.

(** C10 (as the code has it). A missing value renders as the empty text; a
    finite float renders with exactly six fractional digits; an infinite
    float renders as [inf] or [-inf]; every other value, integers included,
    renders as [str] gives it. *)
Theorem display_text_cases (repr_finite : bool -> positive -> Z -> string)
  (v : value) :
  match v with
  | VFloat S754_nan => display_text repr_finite v = ""
  | VFloat (S754_infinity s) => display_text repr_finite v = sign_text s ++ "inf"
  | VFloat (S754_zero _) | VFloat (S754_finite _ _ _) =>
      fraction_digits (display_text repr_finite v) = Some 6%nat
  | VStr _ | VInt _ | VBool _ =>
      display_text repr_finite v = str_value repr_finite v
  end.
Proof.
  destruct v as [t|z|b|[s|s| |s m e]]; try reflexivity.
  - destruct s; reflexivity.
  - apply format_6f_finite.
Qed.

(** C10 fails as stated: the integer 42 is numeric and renders as [42],
    without fractional digits; so does an infinite float. *)
Lemma integer_without_fraction :
  display_text no_repr (VInt 42) = "42" /\
  fraction_digits "42" = None /\
  display_text no_repr (VFloat (S754_infinity false)) = "inf".
Proof. vm_compute. repeat split. Qed.

(** ** The search *)



Lemma map2_orb_assoc (a b c : list bool) :
  map2_orb (map2_orb a b) c = map2_orb a (map2_orb b c).
Proof.
  unfold map2_orb. revert b c.
  induction a as [|x a IH]; intros [|y b] [|z c]; cbn; try reflexivity.
  rewrite IH, orb_assoc. reflexivity.
Qed.

Lemma map2_orb_maps {A : Type} (g h : A -> bool) (l : list A) :
  map2_orb (map g l) (map h l) = map (fun x => g x || h x) l.
Proof.
  unfold map2_orb. induction l as [|x l IH]; cbn; [reflexivity|].
  rewrite IH. reflexivity.
Qed.

Lemma map2_orb_false {A : Type} (h : A -> bool) (l : list A) :
  map2_orb (repeat false (List.length l)) (map h l) = map h l.
Proof.
  unfold map2_orb. induction l as [|x l IH]; cbn; [reflexivity|].
  rewrite IH. reflexivity.
Qed.



Lemma true_positions_In (mask : list bool) :
  forall i k,
    In k (true_positions mask i) <->
    i <= k /\ nth (Z.to_nat (k - i)) mask false = true.
Proof.
  induction mask as [|b mask IH]; intros i k; cbn [true_positions].
  - split; [intros []|]. intros [_ H]. destruct (Z.to_nat (k - i)); discriminate.
  - assert (Hrest : In k (true_positions mask (i + 1)) <->
                    i < k /\ nth (Z.to_nat (k - i)) (b :: mask) false = true).
    { rewrite IH. split; intros [H1 H2]; (split; [lia|]).
      - replace (Z.to_nat (k - i)) with (S (Z.to_nat (k - (i + 1)))) by lia.
        exact H2.
      - replace (Z.to_nat (k - i)) with (S (Z.to_nat (k - (i + 1)))) in H2 by lia.
        exact H2. }
    destruct b.
    + cbn [In]. rewrite Hrest. split.
      * intros [<-|[H1 H2]]; [|split; [lia|exact H2]].
        split; [lia|]. rewrite Z.sub_diag. reflexivity.
      * intros [H1 H2]. destruct (Z.eq_dec i k) as [E|NE]; [left; exact E|right].
        split; [lia|exact H2].
    + rewrite Hrest. split; intros [H1 H2]; (split; [|exact H2]); [lia|].
      destruct (Z.eq_dec i k) as [<-|NE]; [|lia].
      rewrite Z.sub_diag in H2. discriminate.
Qed.

Section Search.

Variable repr_finite : bool -> positive -> Z -> string.
Variable re_engine : string -> compiled.

Lemma str_contains_compiled (f : string -> bool) (text : string)
  (series : list string) :
  re_compile re_engine text = Matcher f ->
  str_contains re_engine series text = inr (map f series).
Proof. intros E. unfold str_contains. rewrite E. reflexivity. Qed.

Lemma str_contains_failed (msg text : string) (series : list string) :
  re_compile re_engine text = ReError msg ->
  str_contains re_engine series text = inl msg.
Proof. intros E. unfold str_contains. rewrite E. reflexivity. Qed.

Lemma length_map2_orb (a b : list bool) :
  List.length a = List.length b ->
  List.length (map2_orb a b) = List.length b.
Proof.
  intros H. unfold map2_orb.
  rewrite length_map, length_combine. lia.
Qed.

Lemma map2_orb_no_column (mask : list bool) (l : list Row) :
  List.length mask = List.length l ->
  map2_orb mask (map (fun _ => false) l) = mask.
Proof.
  unfold map2_orb. revert l.
  induction mask as [|x mask IH]; intros [|r l] H; cbn in *; try reflexivity;
    try discriminate.
  rewrite IH by lia. rewrite orb_false_r. reflexivity.
Qed.

Lemma all_columns_mask_compiled (f : string -> bool) (text : string)
  (d : DataFrame) (cols : list nat) :
  re_compile re_engine text = Matcher f ->
  forall mask,
    List.length mask = List.length (rows d) ->
    all_columns_mask repr_finite re_engine d text cols mask
    = inr (map2_orb mask
             (map (fun r => existsb (fun j => f (cell_text repr_finite j r)) cols)
                  (rows d))).
Proof.
  intros E. induction cols as [|j cols IH]; intros mask Hlen;
    cbn [all_columns_mask existsb].
  - rewrite map2_orb_no_column by exact Hlen. reflexivity.
  - rewrite (str_contains_compiled f) by exact E.
    unfold astype_str. rewrite map_map.
    change (fun x : Row => f (str_value repr_finite (nth j x NaN)))
      with (fun x : Row => f (cell_text repr_finite j x)).
    rewrite IH.
    + rewrite map2_orb_assoc, map2_orb_maps. reflexivity.
    + rewrite length_map2_orb; rewrite length_map; [reflexivity|exact Hlen].
Qed.

Lemma all_columns_mask_failed (msg text : string) (d : DataFrame)
  (j : nat) (cols : list nat) (mask : list bool) :
  re_compile re_engine text = ReError msg ->
  all_columns_mask repr_finite re_engine d text (j :: cols) mask = inl msg.
Proof.
  intros E. cbn [all_columns_mask].
  rewrite (str_contains_failed msg) by exact E. reflexivity.
Qed.

(** The mask of a search whose pattern compiles: the predicate of the
    search mode, row by row. *)
Lemma search_mask_compiled (f : string -> bool) (text : string)
  (d : DataFrame) (column_idx : Z) :
  re_compile re_engine text = Matcher f ->
  columns d <> [] ->
  search_mask repr_finite re_engine d column_idx text
  = inr (map (row_matches repr_finite f (List.length (columns d)) column_idx)
             (rows d)).
Proof.
  intros E Hc. unfold search_mask, row_matches.
  destruct ((0 <=? column_idx)
            && (column_idx <? Z.of_nat (List.length (columns d)))).
  - rewrite (str_contains_compiled f) by exact E.
    unfold astype_str. rewrite map_map. reflexivity.
  - destruct (columns d) as [|c cs] eqn:Ec; [contradiction|].
    rewrite (all_columns_mask_compiled f) by (exact E || apply repeat_length).
    rewrite map2_orb_false. reflexivity.
Qed.

(** A pattern that does not compile fails the whole mask. *)
Lemma search_mask_failed (msg text : string) (d : DataFrame) (column_idx : Z) :
  re_compile re_engine text = ReError msg ->
  columns d <> [] ->
  search_mask repr_finite re_engine d column_idx text = inl msg.
Proof.
  intros E Hc. unfold search_mask.
  destruct ((0 <=? column_idx)
            && (column_idx <? Z.of_nat (List.length (columns d)))).
  - apply str_contains_failed, E.
  - destruct (columns d) as [|c cs] eqn:Ec; [contradiction|].
    cbn [List.length seq]. apply all_columns_mask_failed, E.
Qed.

(** A mask, when there is one, has one entry per row, and the frame has
    columns. *)
Lemma search_mask_shape (text : string) (d : DataFrame) (column_idx : Z)
  (mask : list bool) :
  search_mask repr_finite re_engine d column_idx text = inr mask ->
  List.length mask = List.length (rows d) /\ columns d <> [].
Proof.
  intros H.
  assert (Hc : columns d <> []).
  { intros Ec. unfold search_mask in H. rewrite Ec in H.
    cbn [List.length Z.of_nat] in H.
    destruct (Z.leb_spec 0 column_idx), (Z.ltb_spec column_idx 0);
      cbn in H; try discriminate; lia. }
  split; [|exact Hc].
  destruct (re_compile re_engine text) as [f|msg] eqn:E.
  - rewrite (search_mask_compiled f) in H by assumption.
    injection H as <-. apply length_map.
  - rewrite (search_mask_failed msg) in H by assumption. discriminate.
Qed.

Lemma result_indices_inv (d : DataFrame) (column_idx : Z) (text : string)
  (idxs : list Z) :
  result_indices repr_finite re_engine d column_idx text = inr idxs ->
  exists mask,
    search_mask repr_finite re_engine d column_idx text = inr mask /\
    idxs = true_positions mask 0.
Proof.
  unfold result_indices.
  destruct (search_mask _ _ _ _ _) as [msg|mask]; [discriminate|].
  intros [= <-]. exists mask. split; reflexivity.
Qed.






End Search.





(** What [astype(str)] makes of a missing field (pandas before 3.0) is the
    text [nan], which [na=False] no longer sees: the query [nan] matches
    it. *)
Example missing_field_matches_nan :
  search_mask no_repr no_engine (mkDataFrame ["x"] [[NaN]]) (-1) "nan"
  = inr [true].
Proof. vm_compute. reflexivity. Qed.



Example format_6f_samples :
  format_6f (S754_finite false 3602879701896397 (-55)) = "0.100000" /\
  format_6f (S754_finite true 5 (-1)) = "-2.500000" /\
  format_6f (S754_finite false 1 (-7)) = "0.007812" /\
  format_6f (S754_finite false 3 (-7)) = "0.023438" /\
  format_6f (S754_finite false 5 (-24)) = "0.000000" /\
  format_6f (S754_finite false 4503599627370497 10)
  = "4611686018427388928.000000".
Proof. vm_compute. repeat split. Qed.

(** * Further properties of the code *)

(** ** The table model as the view reads it *)

Lemma set_offset_fields (m : DataFrameModel) (r : Z) :
  total_rows (set_offset m r) = total_rows m /\
  loaded_rows (set_offset m r) = loaded_rows m.
Proof.
  unfold set_offset, update_display_data. cbn [offset df].
  destruct (_ <? _); split; reflexivity.
Qed.

(** [data] has a text exactly at the indices inside [rowCount] and
    [columnCount]; everywhere else it returns [None]. *)
Theorem data_defined_inside_counts
  (repr_finite : bool -> positive -> Z -> string) (m : DataFrameModel)
  (row col : nat) :
  (exists text, data repr_finite m row col = Some text) <->
  Z.of_nat row < rowCount m /\ Z.of_nat col < columnCount m.
Proof.
  unfold data, rowCount, columnCount, df_len.
  destruct (df_empty (display_df m)).
  - split; [intros [t Ht]; discriminate|lia].
  - destruct (Nat.leb_spec (List.length (rows (display_df m))) row) as [Hr|Hr];
    destruct (Nat.leb_spec (List.length (columns (display_df m))) col) as [Hc|Hc];
      cbn [orb]; (split; [intros [t Ht]; try discriminate; lia|intros [H1 H2]]);
      try lia.
    eexists. reflexivity.
Qed.

(** Of two offset requests in a row the last one wins: when it points
    inside the loaded rows the model is the one the last request alone would
    give. *)
Theorem set_offset_last_wins (m : DataFrameModel) (a b : Z) :
  clamp b 0 (max_offset m) < df_len (df m) ->
  set_offset (set_offset m a) b = set_offset m b.
Proof.
  intros Hb.
  destruct (set_offset_fields m a) as [Ht Hl].
  pose proof (df_set_offset m a) as Hd.
  unfold set_offset at 1. rewrite Ht, Hl, Hd.
  unfold set_offset at 2.
  assert (E : Z.max 0 (Z.min b (total_rows m - VISIBLE_ROWS))
              = clamp b 0 (max_offset m)) by (unfold clamp, max_offset; lia).
  rewrite E. unfold update_display_data. cbn [offset df display_df].
  destruct (Z.ltb_spec (clamp b 0 (max_offset m)) (df_len (df m))); [|lia].
  reflexivity.
Qed.

Lemma set_offset_last_wins_witness :
  set_offset (set_offset partial_load 30) 10 = set_offset partial_load 10.
Proof.
  apply set_offset_last_wins. vm_compute. reflexivity.
Defined.

Lemma nth_firstn_skipn {A : Type} (l : list A) (o n i : nat) (d : A) :
  (i < n)%nat -> nth i (firstn n (skipn o l)) d = nth (o + i) l d.
Proof.
  intros Hi. revert l. induction o as [|o IH]; intros l; cbn [skipn Nat.add].
  - revert i n Hi. induction l as [|x l IHl]; intros i n Hi.
    + rewrite firstn_nil. reflexivity.
    + destruct n; [lia|]. destruct i; cbn; [reflexivity|]. apply IHl. lia.
  - destruct l as [|x l]; cbn [nth].
    + rewrite firstn_nil. destruct i, o; reflexivity.
    + apply IH.
Qed.

(** After an offset request inside the loaded rows, line [i] of the window
    is row [offset + i] of the frame, and its vertical header shows
    [offset + i + 1]. *)
Theorem vertical_header_numbers_rows (m : DataFrameModel) (o : Z) (i : nat) :
  0 <= o <= max_offset m ->
  o < df_len (df m) ->
  let m' := set_offset m o in
  Z.of_nat i < rowCount m' ->
  headerData m' i Vertical = header_text (str_int (o + Z.of_nat i + 1)) /\
  nth i (rows (display_df m')) [] = nth (Z.to_nat o + i) (rows (df m)) [].
Proof.
  intros Ho Hlt m' Hi.
  assert (Eo : Z.max 0 (Z.min o (total_rows m - VISIBLE_ROWS)) = o)
    by (unfold max_offset in Ho; lia).
  set (m0 := mkModel (df m) (display_df m) (total_rows m) (loaded_rows m) o).
  assert (Em : m' = update_display_data m0)
    by (subst m' m0; unfold set_offset; rewrite Eo; reflexivity).
  assert (Er : rows (display_df m')
               = firstn (Z.to_nat VISIBLE_ROWS) (skipn (Z.to_nat o) (rows (df m)))).
  { rewrite Em. apply (window_rows m0); cbn; lia. }
  assert (El : Z.of_nat (List.length (rows (display_df m')))
               = Z.min VISIBLE_ROWS (df_len (df m) - o)).
  { rewrite Em. apply (window_length m0); cbn; lia. }
  assert (Eoff : offset m' = o) by (subst m'; rewrite offset_set_offset; exact Eo).
  assert (Hne : df_empty (display_df m') = false).
  { unfold rowCount in Hi. destruct (df_empty (display_df m')); [lia|reflexivity]. }
  split.
  - unfold headerData. rewrite Hne, Eoff. reflexivity.
  - rewrite Er. apply nth_firstn_skipn.
    unfold rowCount in Hi. rewrite Hne in Hi. unfold df_len in Hi.
    rewrite El in Hi. unfold VISIBLE_ROWS in *. lia.
Qed.

Lemma vertical_header_numbers_rows_witness :
  headerData (set_offset partial_load 20) 3 Vertical = header_text "24".
Proof.
  refine (eq_trans
            (proj1 (vertical_header_numbers_rows partial_load 20 3 _ _ _)) _).
  - vm_compute. split; discriminate.
  - vm_compute. reflexivity.
  - vm_compute. reflexivity.
  - vm_compute. reflexivity.
Defined.

(** ** What no sequence of events breaks *)

Section Events.

Variable repr_finite : bool -> positive -> Z -> string.
Variable re_engine : string -> compiled.

(** The chunks that the events of a list carry satisfy [Q]. *)
Let chunks_satisfy (Q : DataFrame -> Prop) (ev : Event) : Prop :=
  match ev with
  | loader_signal (data_loaded chunk _) => Q chunk
  | _ => True
  end.

Lemma model_search_data (app : CSVReaderApp) (text : string) :
  model (search_data repr_finite re_engine app text) = model app \/
  exists o, model (search_data repr_finite re_engine app text)
            = set_offset (model app) o.
Proof.
  unfold search_data. destruct (_ || _); [left; reflexivity|].
  destruct (result_indices _ _ _ _ _) as [msg|[|first others]];
    [left; reflexivity|left; reflexivity|right].
  eexists. reflexivity.
Qed.

(** A property of the model that offset requests and chunk appends keep is
    kept by every event. *)
Lemma step_keeps (P : DataFrameModel -> Prop) (Q : DataFrame -> Prop) :
  (forall m o, P m -> P (set_offset m o)) ->
  (forall m chunk n, P m -> Q chunk -> P (update_chunk m chunk n)) ->
  forall app ev,
    chunks_satisfy Q ev -> P (model app) ->
    P (model (fst (step repr_finite re_engine app ev))).
Proof.
  intros Hoff Hchunk app ev Hev HP.
  destruct ev as [[v|chunk n|msg]|value|maximum|ms|text|i]; cbn [step fst deliver].
  - unfold update_progress. destruct (_ =? _); exact HP.
  - unfold update_data. cbn [model with_model].
    destruct (_ && _); cbn [model with_model with_search_column];
      apply Hchunk; assumption.
  - exact HP.
  - exact HP.
  - exact HP.
  - destruct (elapse (table_view app) (model app) ms) as [v emitted].
    cbn [fst]. rewrite model_after_requests. cbn [model with_view].
    revert HP. generalize (model app). clear -Hoff.
    induction emitted as [|o l IH]; intros m HP; cbn [fold_left]; [exact HP|].
    apply IH, Hoff, HP.
  - destruct (model_search_data app text) as [E|[o E]]; rewrite E;
      [exact HP|apply Hoff, HP].
  - destruct (_ && _); exact HP.
Qed.

Lemma run_events_keeps (P : DataFrameModel -> Prop) (Q : DataFrame -> Prop) :
  (forall m o, P m -> P (set_offset m o)) ->
  (forall m chunk n, P m -> Q chunk -> P (update_chunk m chunk n)) ->
  forall evs app,
    Forall (chunks_satisfy Q) evs -> P (model app) ->
    P (model (fst (run_events repr_finite re_engine app evs))).
Proof.
  intros Hoff Hchunk. induction evs as [|ev evs IH]; intros app Hevs HP;
    cbn [run_events]; [exact HP|].
  inversion Hevs as [|? ? Hev Hrest]; subst.
  pose proof (step_keeps P Q Hoff Hchunk app ev Hev HP) as H1.
  destruct (step repr_finite re_engine app ev) as [app1 out1]. cbn [fst] in H1.
  specialize (IH app1 Hrest H1).
  destruct (run_events repr_finite re_engine app1 evs) as [app2 out2].
  exact IH.
Qed.

Lemma update_chunk_fields (m : DataFrameModel) (chunk : DataFrame) (n : Z) :
  total_rows (update_chunk m chunk n) = total_rows m /\
  offset (update_chunk m chunk n) = offset m.
Proof.
  unfold update_chunk, update_display_data. cbn [offset df].
  destruct (_ <? _); split; reflexivity.
Qed.

(** Whatever the events (signals of the loader, scrolling, time, searches,
    selections), the total row count announced at the start of the load
    stays, and the offset stays inside [[0, max(0, total_rows -
    VISIBLE_ROWS)]]. *)
Theorem offset_stays_valid (app : CSVReaderApp) (evs : list Event) :
  0 <= offset (model app) <= max_offset (model app) ->
  let app' := fst (run_events repr_finite re_engine app evs) in
  total_rows (model app') = total_rows (model app) /\
  0 <= offset (model app') <= max_offset (model app').
Proof.
  intros H0 app'.
  set (P := fun m : DataFrameModel =>
              total_rows m = total_rows (model app) /\
              0 <= offset m <= max_offset m).
  assert (HP : P (model app')).
  { subst app'. apply (run_events_keeps P (fun _ => True)).
    - intros m o [Ht Ho]. unfold P.
      destruct (set_offset_fields m o) as [E _].
      unfold max_offset. rewrite offset_set_offset, E. split; [exact Ht|lia].
    - intros m chunk n [Ht Ho] _. unfold P.
      destruct (update_chunk_fields m chunk n) as [E1 E2].
      unfold max_offset in *. rewrite E1, E2. split; [exact Ht|exact Ho].
    - apply Forall_forall. intros ev _.
      destruct ev as [[?|? ?|?]|?|?|?|?|?]; exact I.
    - split; [reflexivity|exact H0]. }
  exact HP.
Qed.






End Events.

Lemma offset_stays_valid_witness :
  total_rows (model (fst (run_events no_repr no_engine two_row_app sample_events)))
  = 2 /\
  0 <= offset (model (fst (run_events no_repr no_engine two_row_app
                             sample_events))) <= 0.
Proof.
  exact (offset_stays_valid no_repr no_engine two_row_app sample_events
           ltac:(vm_compute; split; discriminate)).
Defined.



(** ** Every way a load can end *)

Lemma read_csv_chunks (src : Source) :
  Forall (chunk_of (header src)) (read_csv src) /\
  (header src = [] -> read_csv src = [inl "No columns to parse from file"]).
Proof.
  unfold read_csv. destruct (header src) as [|c cs] eqn:E.
  - split; [repeat constructor|reflexivity].
  - split; [|discriminate]. apply Forall_forall. intros item Hin.
    apply in_map_iff in Hin. destruct Hin as [[msg|rs] [<- _]]; cbn; auto.
Qed.

Lemma loaded_chunks_of_reader is_running total_lines cols reader :
  Forall (chunk_of cols) reader ->
  forall i acc,
    Forall (fun chunk => columns chunk = cols)
           (loaded_chunks (run_loop is_running total_lines i acc reader)).
Proof.
  induction 1 as [|[msg|chunk] rest Hitem _ IH]; intros i acc; cbn.
  - constructor.
  - constructor.
  - destruct (is_running i); cbn; [|constructor].
    destruct (progress_percent _ _); cbn; [|constructor].
    constructor; [exact Hitem|apply IH].
Qed.














(** ** The column selector *)

Lemma selector_stays_filled (cols : list string) (signals : list Signal) :
  cols <> [] ->
  forall app,
    search_column app = "All Columns" :: cols ->
    search_column (fold_left deliver signals app) = "All Columns" :: cols.
Proof.
  intros Hc. induction signals as [|[v|chunk n|msg] l IH]; intros app Hs;
    cbn [fold_left deliver]; [exact Hs|apply IH..].
  - unfold update_progress. destruct (_ =? _); exact Hs.
  - unfold update_data. cbn [search_column with_model]. rewrite Hs.
    destruct cols as [|c cs]; [contradiction|]. cbn [List.length].
    destruct (Z.leb_spec (Z.of_nat (S (S (List.length cs)))) 1); [lia|].
    cbn [andb]. exact Hs.
  - exact Hs.
Qed.

Lemma selector_filled_by_first_rows (cols : list string)
  (signals : list Signal) :
  cols <> [] ->
  Forall (fun chunk => columns chunk = cols) (loaded_chunks signals) ->
  forall app,
    search_column app = ["All Columns"] ->
    search_column (fold_left deliver signals app)
    = if existsb (fun chunk => negb (df_empty chunk)) (loaded_chunks signals)
      then "All Columns" :: cols else ["All Columns"].
Proof.
  intros Hc. induction signals as [|[v|chunk n|msg] l IH]; intros Hall app Hs;
    cbn [fold_left deliver loaded_chunks existsb] in *.
  - exact Hs.
  - apply IH; [exact Hall|]. unfold update_progress.
    destruct (_ =? _); exact Hs.
  - inversion Hall as [|? ? Hchunk Hrest]; subst.
    destruct (df_empty chunk) eqn:Ee; cbn [negb orb].
    + apply IH; [exact Hrest|]. unfold update_data.
      cbn [search_column with_model]. rewrite Hs, Ee, andb_false_r. exact Hs.
    + apply selector_stays_filled; [exact Hc|].
      unfold update_data. cbn [search_column with_model]. rewrite Hs, Ee.
      reflexivity.
  - apply IH; [exact Hall|exact Hs].
Qed.

Lemma selector_index_delivered (signals : list Signal) (app : CSVReaderApp) :
  search_column_index (fold_left deliver signals app) = search_column_index app.
Proof.
  revert app. induction signals as [|[v|chunk n|msg] l IH]; intros app;
    cbn [fold_left deliver]; [reflexivity|rewrite IH..].
  - unfold update_progress. destruct (_ =? _); reflexivity.
  - unfold update_data. destruct (_ && _); reflexivity.
  - reflexivity.
Qed.

(** A load resets the column selector to [All Columns]; the first chunk
    that has rows adds the columns of the header, once: later chunks add
    nothing, and a load that hands over no row leaves the selector with
    [All Columns] alone.  The selection stays on [All Columns]. *)
Theorem column_selector_filled_once (src : Source) (is_running : nat -> bool)
  (total_lines : Z) (app : CSVReaderApp) (file_path : string) :
  line_count src = inr total_lines ->
  let signals := run src is_running in
  let app' := fold_left deliver signals (load_file app file_path src) in
  search_column app'
  = (if existsb (fun chunk => negb (df_empty chunk)) (loaded_chunks signals)
     then "All Columns" :: header src else ["All Columns"]) /\
  search_column_index app' = 0.
Proof.
  intros Hlines signals app'.
  assert (H0 : search_column (load_file app file_path src) = ["All Columns"]
               /\ search_column_index (load_file app file_path src) = 0)
    by (unfold load_file; rewrite Hlines; split; reflexivity).
  destruct H0 as [Hs Hi].
  split; [|subst app'; rewrite selector_index_delivered; exact Hi].
  destruct (read_csv_chunks src) as [Hchunks Hnone].
  destruct (header src) as [|c cs] eqn:Eh.
  - subst app' signals. unfold run. rewrite Hlines, (Hnone eq_refl). exact Hs.
  - subst app'. apply selector_filled_by_first_rows; [discriminate| |exact Hs].
    subst signals. unfold run. rewrite Hlines. cbn [loaded_chunks].
    apply loaded_chunks_of_reader. exact Hchunks.
Qed.

Lemma column_selector_filled_once_witness :
  search_column (fold_left deliver (run four_row_file always_running)
                   (load_file new_app "/data/four.csv" four_row_file))
  = ["All Columns"; "a"].
Proof.
  exact (proj1 (column_selector_filled_once four_row_file always_running 5
                  new_app "/data/four.csv" eq_refl)).
Defined.

(** ** The scroll mapping stays inside the valid offsets *)

Section Exact.
Local Open Scope Q_scope.

Lemma round64_eq (x y : Q) : x == y -> round64 x == round64 y.
Proof.
  intros E. apply Qle_antisym; apply round64_le; rewrite E; apply Qle_refl.
Qed.

Lemma rne_of_integer (x : Q) (k : Z) : x == inject_Z k -> rne x = k.
Proof.
  intros E.
  assert (H1 : (rne x <= rne (inject_Z k))%Z) by (apply rne_le; rewrite E; apply Qle_refl).
  assert (H2 : (rne (inject_Z k) <= rne x)%Z) by (apply rne_le; rewrite E; apply Qle_refl).
  rewrite rne_inject_Z in H1, H2. lia.
Qed.

(** The integers below [2^53] are floats. *)
Lemma round64_integer (n : Z) :
  (0 <= n < 2 ^ 53)%Z -> round64 (inject_Z n) == inject_Z n.
Proof.
  intros [H0 H53]. unfold round64.
  destruct (Qcompare_spec (inject_Z n) 0) as [E|L|G].
  - rewrite E. reflexivity.
  - exfalso. change 0 with (inject_Z 0) in L. rewrite <- Zlt_Qlt in L. lia.
  - destruct (binade_spec (inject_Z n) G) as [B1 B2].
    set (b := binade (inject_Z n)) in *.
    assert (Hb1 : (b < 53)%Z).
    { apply (Qpower_lt_compat_l_inv 2); [|reflexivity].
      eapply Qle_lt_trans; [exact B1|].
      rewrite <- pow2_inject by lia. rewrite <- Zlt_Qlt. exact H53. }
    assert (Hb0 : (0 <= b)%Z).
    { assert (0 < b + 1)%Z; [|lia].
      apply (Qpower_lt_compat_l_inv 2); [|reflexivity].
      eapply Qle_lt_trans; [|exact B2].
      change (2 ^ 0) with (inject_Z 1). rewrite <- Zle_Qle.
      change 0 with (inject_Z 0) in G. rewrite <- Zlt_Qlt in G. lia. }
    rewrite round_pos_eq. fold b.
    assert (Es : inject_Z n / 2 ^ (b - 52) == inject_Z (n * 2 ^ (52 - b))).
    { rewrite inject_Z_mult, pow2_inject by lia.
      unfold Qdiv. rewrite <- Qpower_opp.
      replace (- (b - 52))%Z with (52 - b)%Z by lia. reflexivity. }
    rewrite (rne_of_integer _ _ Es).
    rewrite inject_Z_mult, pow2_inject by lia.
    rewrite <- Qmult_assoc, <- Qpower_plus by discriminate.
    replace (52 - b + (b - 52))%Z with 0%Z by lia.
    change (2 ^ 0) with 1. apply Qmult_1_r.
Qed.

Lemma int_of_float_integer (x : Q) (n : Z) :
  (0 <= n)%Z -> x == inject_Z n -> int_of_float x = n.
Proof.
  intros Hn E.
  assert (Hx : 0 <= x)
    by (rewrite E; change 0 with (inject_Z 0); rewrite <- Zle_Qle; exact Hn).
  rewrite int_of_float_floor by exact Hx.
  assert (H1 : (Qfloor x <= Qfloor (inject_Z n))%Z)
    by (apply Qfloor_resp_le; rewrite E; apply Qle_refl).
  assert (H2 : (Qfloor (inject_Z n) <= Qfloor x)%Z)
    by (apply Qfloor_resp_le; rewrite E; apply Qle_refl).
  rewrite Qfloor_Z in H1, H2. lia.
Qed.

End Exact.

Lemma mapped_offset_bounds (position maximum n : Z) :
  0 <= position <= maximum -> 0 < maximum -> 0 <= n < 2 ^ 53 ->
  exists ratio,
    truediv position maximum = Some ratio /\
    0 <= int_of_float (fmul ratio (float_of_int n)) <= n /\
    (position = 0 -> int_of_float (fmul ratio (float_of_int n)) = 0) /\
    (position = maximum -> int_of_float (fmul ratio (float_of_int n)) = n).
Proof.
  intros Hp Hm Hn. unfold truediv.
  destruct (Z.eqb_spec maximum 0); [lia|].
  eexists. split; [reflexivity|].
  set (r := round64 (inject_Z position / inject_Z maximum)).
  pose proof (round64_integer n Hn) as C. fold (float_of_int n) in C.
  assert (R0 : (0 <= r)%Q)
    by (apply round64_nonneg, ratio_nonneg; lia).
  assert (R1 : (r <= 1)%Q).
  { rewrite <- round64_1. apply round64_le, ratio_le_1; lia. }
  assert (N0 : (0 <= inject_Z n)%Q)
    by (change 0%Q with (inject_Z 0); rewrite <- Zle_Qle; lia).
  assert (X0 : (0 <= r * float_of_int n)%Q)
    by (rewrite C; apply Qmult_le_0_compat; assumption).
  assert (X1 : (r * float_of_int n <= inject_Z n)%Q).
  { rewrite C. setoid_replace (inject_Z n) with (1 * inject_Z n)%Q at 2 by ring.
    apply Qmult_le_compat_r; assumption. }
  assert (Top : int_of_float (round64 (inject_Z n)) = n)
    by (apply int_of_float_integer; [lia|apply round64_integer, Hn]).
  unfold fmul. split; [split|split].
  - change 0 with (int_of_float 0). apply int_of_float_le; [apply Qle_refl|].
    apply round64_nonneg, X0.
  - rewrite <- Top at 2. apply int_of_float_le; [apply round64_nonneg, X0|].
    apply round64_le, X1.
  - intros ->. apply int_of_float_integer; [lia|].
    assert (Er : (r == 0)%Q).
    { subst r. change 0%Q with (round64 0). apply round64_eq.
      unfold Qdiv. apply Qmult_0_l. }
    change (inject_Z 0) with (round64 0). apply round64_eq.
    rewrite Er. apply Qmult_0_l.
  - intros ->.
    assert (Er : (r == 1)%Q).
    { subst r. rewrite <- round64_1. apply round64_eq.
      apply Qmult_inv_r. change 0%Q with (inject_Z 0). rewrite inject_Z_injective. lia. }
    apply int_of_float_integer; [lia|].
    apply (Qeq_trans _ (round64 (inject_Z n))); [|apply round64_integer, Hn].
    apply round64_eq. rewrite Er, C. apply Qmult_1_l.
Qed.

(** With at least a window of rows and a scroll position inside the range
    of the scroll bar, the offset computed from the position is a valid
    offset, which [set_offset] stores as it is; the top of the scroll bar
    maps to the first row and its bottom to the last full window. *)
Theorem scroll_offset_in_range (v : OptimizedTableView) (m : DataFrameModel) :
  0 < scroll_maximum v ->
  0 <= current_scroll_value v <= scroll_maximum v ->
  VISIBLE_ROWS <= total_rows m < 2 ^ 53 ->
  exists o,
    update_model_from_scroll v m = [o] /\
    0 <= o <= max_offset m /\
    offset (set_offset m o) = o /\
    (current_scroll_value v = 0 -> o = 0) /\
    (current_scroll_value v = scroll_maximum v -> o = max_offset m).
Proof.
  intros Hmax Hpos Htot.
  assert (Hn : 0 <= total_rows m - VISIBLE_ROWS < 2 ^ 53)
    by (unfold VISIBLE_ROWS in *; lia).
  destruct (mapped_offset_bounds (current_scroll_value v) (scroll_maximum v)
              (total_rows m - VISIBLE_ROWS) Hpos Hmax Hn)
    as (ratio & Er & Hb & Hzero & Hfull).
  exists (int_of_float
            (fmul ratio (float_of_int (total_rows m - VISIBLE_ROWS)))).
  assert (Emax : max_offset m = total_rows m - VISIBLE_ROWS)
    by (unfold max_offset; lia).
  split; [|split; [|split; [|split]]].
  - unfold update_model_from_scroll.
    destruct (Z.gtb_spec (total_rows m) 0); [|unfold VISIBLE_ROWS in *; lia].
    destruct (Z.gtb_spec (scroll_maximum v) 0); [|lia].
    rewrite Er. reflexivity.
  - rewrite Emax. exact Hb.
  - rewrite offset_set_offset. lia.
  - exact Hzero.
  - rewrite Emax. exact Hfull.
Qed.

Lemma scroll_offset_in_range_witness :
  exists o,
    update_model_from_scroll (mkView 3 None 4) long_model = [o] /\
    0 <= o <= max_offset long_model /\
    offset (set_offset long_model o) = o /\
    (3 = 0 -> o = 0) /\
    (3 = 4 -> o = max_offset long_model).
Proof.
  apply (scroll_offset_in_range (mkView 3 None 4) long_model).
  - reflexivity.
  - cbn. lia.
  - vm_compute. split; [discriminate|reflexivity].
Defined.

(** Scrolling further down never moves the window up: over the same scroll
    range and the same model, a larger position gives an offset that is not
    smaller. *)
Theorem scroll_offset_monotone (v v' : OptimizedTableView)
  (m : DataFrameModel) (o o' : Z) :
  scroll_maximum v' = scroll_maximum v ->
  0 <= current_scroll_value v <= current_scroll_value v' ->
  VISIBLE_ROWS <= total_rows m ->
  update_model_from_scroll v m = [o] ->
  update_model_from_scroll v' m = [o'] ->
  o <= o'.
Proof.
  intros Emax Hpos Htot. unfold update_model_from_scroll. rewrite Emax.
  destruct (total_rows m >? 0); [|discriminate].
  destruct (Z.gtb_spec (scroll_maximum v) 0) as [Hm|Hm]; [|discriminate].
  unfold truediv. destruct (Z.eqb_spec (scroll_maximum v) 0); [lia|].
  intros [= <-] [= <-].
  set (c := float_of_int (total_rows m - VISIBLE_ROWS)).
  assert (C0 : (0 <= c)%Q).
  { apply round64_nonneg. change 0%Q with (inject_Z 0). rewrite <- Zle_Qle. lia. }
  assert (R0 : (0 <= round64 (inject_Z (current_scroll_value v)
                              / inject_Z (scroll_maximum v)))%Q)
    by (apply round64_nonneg, ratio_nonneg; lia).
  unfold fmul. apply int_of_float_le.
  - apply round64_nonneg, Qmult_le_0_compat; assumption.
  - apply round64_le, Qmult_le_compat_r; [|exact C0].
    apply round64_le, ratio_le; lia.
Qed.

Lemma scroll_offset_monotone_witness :
  update_model_from_scroll (mkView 1 None 4) long_model = [225] /\
  update_model_from_scroll (mkView 3 None 4) long_model = [675] /\
  225 <= 675.
Proof.
  assert (H1 : update_model_from_scroll (mkView 1 None 4) long_model = [225])
    by (vm_compute; reflexivity).
  assert (H2 : update_model_from_scroll (mkView 3 None 4) long_model = [675])
    by (vm_compute; reflexivity).
  split; [exact H1|]. split; [exact H2|].
  apply (scroll_offset_monotone (mkView 1 None 4) (mkView 3 None 4) long_model
           225 675 eq_refl); [cbn; lia|vm_compute; discriminate|exact H1|exact H2].
Defined.

(** While raw scroll changes keep arriving less than 50 ms apart the timer
    never fires: no offset request is emitted and the model is not
    touched. *)
Theorem nothing_delivered_while_scrolling
  (repr_finite : bool -> positive -> Z -> string)
  (re_engine : string -> compiled) (app : CSVReaderApp)
  (changes : list (Z * Z)) :
  Forall (fun p => snd p < 50) changes ->
  let after := run_events repr_finite re_engine app (scroll_changes changes) in
  snd after = [] /\
  model (fst after) = model app /\
  status_bar (fst after) = status_bar app.
Proof.
  intros Hgaps after.
  destruct (earlier_changes_pending repr_finite re_engine changes Hgaps app)
    as [v [E _]].
  subst after. unfold scroll_changes. rewrite E. repeat split.
Qed.

Lemma nothing_delivered_while_scrolling_witness :
  snd (run_events no_repr no_engine scrolling_app
         (scroll_changes [(1, 10); (3, 49); (2, 0)])) = [].
Proof.
  refine (proj1 (nothing_delivered_while_scrolling no_repr no_engine
                   scrolling_app [(1, 10); (3, 49); (2, 0)] _)).
  repeat constructor; cbn; lia.
Defined.

(** ** Appending shows in the window *)



(** ** More on the search *)

Lemma positions_of_map (g : Row -> bool) (l : list Row) (i : Z) :
  In i (true_positions (map g l) 0) <->
  0 <= i < Z.of_nat (List.length l) /\ g (nth (Z.to_nat i) l []) = true.
Proof.
  rewrite true_positions_In, Z.sub_0_r. split.
  - intros [H0 Hn].
    destruct (Nat.lt_ge_cases (Z.to_nat i) (List.length l)) as [Hlt|Hge].
    + split; [lia|].
      rewrite (nth_indep _ false (g [])) in Hn by (rewrite length_map; exact Hlt).
      rewrite map_nth in Hn. exact Hn.
    + rewrite nth_overflow in Hn by (rewrite length_map; exact Hge).
      discriminate.
  - intros [[H0 Hlt] Hn]. split; [exact H0|].
    rewrite (nth_indep _ false (g [])) by (rewrite length_map; lia).
    rewrite map_nth. exact Hn.
Qed.

Lemma to_lower_idempotent (c : ascii) : to_lower (to_lower c) = to_lower c.
Proof. destruct c as [[] [] [] [] [] [] [] []]; reflexivity. Qed.

Lemma to_lower_keeps_meta (c : ascii) : is_meta (to_lower c) = is_meta c.
Proof. destruct c as [[] [] [] [] [] [] [] []]; reflexivity. Qed.

Lemma to_lower_keeps_dot (c : ascii) :
  Ascii.eqb (to_lower c) "." = Ascii.eqb c ".".
Proof. destruct c as [[] [] [] [] [] [] [] []]; reflexivity. Qed.

Lemma to_lower_keeps_newline (c : ascii) :
  Ascii.eqb (to_lower c) "010" = Ascii.eqb c "010".
Proof. destruct c as [[] [] [] [] [] [] [] []]; reflexivity. Qed.

Lemma parse_atoms_lower (text : string) (atoms : list atom) :
  parse_atoms text = Some atoms ->
  parse_atoms (lower text) = Some (map lower_atom atoms).
Proof.
  revert atoms. induction text as [|c text IH]; intros atoms; cbn [parse_atoms lower].
  - intros [= <-]. reflexivity.
  - rewrite to_lower_keeps_dot, to_lower_keeps_meta.
    destruct (Ascii.eqb c ".").
    + destruct (parse_atoms text) as [rest|]; [|discriminate].
      intros [= <-]. rewrite (IH rest eq_refl). reflexivity.
    + destruct (is_meta c); [discriminate|].
      destruct (parse_atoms text) as [rest|]; [|discriminate].
      intros [= <-]. rewrite (IH rest eq_refl). reflexivity.
Qed.

Lemma atom_matches_lower (a : atom) (c : ascii) :
  atom_matches (lower_atom a) c = atom_matches a c /\
  atom_matches a (to_lower c) = atom_matches a c.
Proof.
  destruct a as [x|]; cbn.
  - rewrite !to_lower_idempotent. split; reflexivity.
  - rewrite to_lower_keeps_newline. split; reflexivity.
Qed.

Lemma match_here_lower (atoms : list atom) (s : string) :
  match_here (map lower_atom atoms) s = match_here atoms s /\
  match_here atoms (lower s) = match_here atoms s.
Proof.
  revert s. induction atoms as [|a atoms IH]; intros s.
  - destruct s; split; reflexivity.
  - destruct s as [|c s]; [split; reflexivity|]. cbn.
    destruct (atom_matches_lower a c) as [-> ->].
    destruct (IH s) as [-> ->]. split; reflexivity.
Qed.

Lemma re_search_lower (atoms : list atom) (s : string) :
  re_search (map lower_atom atoms) s = re_search atoms s /\
  re_search atoms (lower s) = re_search atoms s.
Proof.
  induction s as [|c s [IH1 IH2]].
  - cbn. destruct (match_here_lower atoms "") as [-> _]. split; reflexivity.
  - cbn [re_search lower].
    destruct (match_here_lower atoms (String c s)) as [-> E].
    cbn [lower] in E. rewrite E, IH1, IH2. split; reflexivity.
Qed.

Section MoreSearch.

Variable repr_finite : bool -> positive -> Z -> string.
Variable re_engine : string -> compiled.

Lemma search_mask_needs_matcher (d : DataFrame) (column_idx : Z)
  (text : string) (mask : list bool) :
  search_mask repr_finite re_engine d column_idx text = inr mask ->
  exists f, re_compile re_engine text = Matcher f.
Proof.
  intros H. destruct (search_mask_shape _ _ _ _ _ _ H) as [_ Hc].
  destruct (re_compile re_engine text) as [f|msg] eqn:E; [eauto|].
  rewrite (search_mask_failed repr_finite re_engine msg) in H by assumption.
  discriminate.
Qed.

(** A row found by the search in one column is found by the search in all
    columns: whenever the single-column search has a result, so has the
    all-columns search for the same query, and it holds every row of the
    former. *)
Theorem column_match_is_all_columns_match (d : DataFrame) (text : string)
  (j : Z) (found : list Z) :
  0 <= j < Z.of_nat (List.length (columns d)) ->
  result_indices repr_finite re_engine d j text = inr found ->
  exists found_all,
    result_indices repr_finite re_engine d (-1) text = inr found_all /\
    forall i, In i found -> In i found_all.
Proof.
  intros Hj Hres.
  destruct (result_indices_inv _ _ _ _ _ _ Hres) as [mask [Hm ->]].
  destruct (search_mask_shape _ _ _ _ _ _ Hm) as [_ Hc].
  destruct (search_mask_needs_matcher _ _ _ _ Hm) as [f E].
  rewrite (search_mask_compiled repr_finite re_engine f) in Hm by assumption.
  injection Hm as <-.
  eexists. split.
  - unfold result_indices.
    rewrite (search_mask_compiled repr_finite re_engine f) by assumption.
    reflexivity.
  - intros i. rewrite !positions_of_map. intros [Hi Hrow]. split; [exact Hi|].
    revert Hrow. unfold row_matches.
    destruct (Z.leb_spec 0 j); [|lia].
    destruct (Z.ltb_spec j (Z.of_nat (List.length (columns d)))); [|lia].
    cbn [andb Z.leb]. intros Hrow.
    apply existsb_exists. exists (Z.to_nat j). split; [|exact Hrow].
    apply in_seq. lia.
Qed.

(** For a query of ordinary characters and dots the letter case does not
    matter: the query in lower case leaves the application in the same
    state as the query itself, and a text matches exactly when the text in
    lower case does. *)
Theorem search_ignores_case (app : CSVReaderApp) (text : string)
  (atoms : list atom) :
  parse_atoms text = Some atoms ->
  search_data repr_finite re_engine app (lower text)
  = search_data repr_finite re_engine app text /\
  forall s, re_search atoms (lower s) = re_search atoms s.
Proof.
  intros Hp. split; [|intros s; apply re_search_lower].
  pose proof (parse_atoms_lower text atoms Hp) as Hl.
  assert (Ec : re_compile re_engine text = Matcher (re_search atoms))
    by (unfold re_compile; rewrite Hp; reflexivity).
  assert (El : re_compile re_engine (lower text)
               = Matcher (re_search (map lower_atom atoms)))
    by (unfold re_compile; rewrite Hl; reflexivity).
  assert (Hmask : forall d idx,
            search_mask repr_finite re_engine d idx (lower text)
            = search_mask repr_finite re_engine d idx text).
  { intros d idx. destruct (columns d) as [|c cs] eqn:Ecols.
    - unfold search_mask. rewrite Ecols. cbn [List.length Z.of_nat].
      destruct (Z.leb_spec 0 idx), (Z.ltb_spec idx 0); cbn [andb];
        try reflexivity; lia.
    - rewrite (search_mask_compiled repr_finite re_engine _ _ _ _ El)
        by (rewrite Ecols; discriminate).
      rewrite (search_mask_compiled repr_finite re_engine _ _ _ _ Ec)
        by (rewrite Ecols; discriminate).
      f_equal. apply map_ext. intros r. unfold row_matches.
      destruct (_ && _).
      + apply re_search_lower.
      + induction (seq 0 (List.length (columns d))) as [|k ks IHk];
          [reflexivity|].
        cbn [existsb]. rewrite IHk.
        destruct (re_search_lower atoms (cell_text repr_finite k r)) as [-> _].
        reflexivity. }
  assert (Hempty : String.eqb (lower text) "" = String.eqb text "")
    by (destruct text; reflexivity).
  unfold search_data, result_indices. rewrite Hempty.
  destruct (_ || _); [reflexivity|]. rewrite Hmask. reflexivity.
Qed.

End MoreSearch.

Lemma column_match_is_all_columns_match_witness :
  exists found_all,
    result_indices no_repr no_engine small_frame (-1) "c" = inr found_all /\
    forall i, In i [1] -> In i found_all.
Proof.
  apply (column_match_is_all_columns_match no_repr no_engine small_frame "c" 0).
  - cbn. lia.
  - vm_compute. reflexivity.
Defined.

Lemma search_ignores_case_witness :
  search_data no_repr no_engine haystack_app (lower "NEEDLE")
  = search_data no_repr no_engine haystack_app "NEEDLE".
Proof.
  exact (proj1 (search_ignores_case no_repr no_engine haystack_app "NEEDLE"
                  _ eq_refl)).
Defined.



(** In a load, as soon as the window has rows its horizontal headers are
    the columns of the file's header, one per column, and asking beyond the
    last column raises. *)
Theorem horizontal_header_is_file_header (cols : list string)
  (m : DataFrameModel) (section : nat) :
  in_load cols m ->
  0 < rowCount m ->
  columnCount m = Z.of_nat (List.length cols) /\
  headerData m section Horizontal
  = match nth_error cols section with
    | Some column => header_text column
    | None => header_index_error
    end.
Proof.
  intros Hload Hrows.
  destruct (in_load_invariant cols m Hload) as (_ & _ & Hdisp & _).
  assert (Hne : df_empty (display_df m) = false).
  { unfold rowCount in Hrows. destruct (df_empty (display_df m)); [lia|reflexivity]. }
  assert (Hc : columns (display_df m) = cols).
  { destruct Hdisp as [Hd|[Hd _]]; [|exact Hd].
    rewrite Hd in Hne. discriminate. }
  unfold columnCount, headerData. rewrite Hne, Hc. split; reflexivity.
Qed.

Lemma horizontal_header_is_file_header_witness :
  columnCount partial_load = 1 /\
  headerData partial_load 0 Horizontal = header_text "a".
Proof.
  apply (horizontal_header_is_file_header ["a"] partial_load 0).
  - unfold partial_load. repeat constructor. discriminate.
  - vm_compute. reflexivity.
Defined.
